(** * cli_downloader: the segmented download engine of [cli_downloader_app.py]

    A shallow embedding of the range planner ([choose_threads] and the range
    computation of [download_file_rich]), the part worker ([download_range]),
    the shared progress counter and the coordinator ([download_file_rich]),
    together with the properties the specification states about them. *)

From Stdlib Require Import ZArith Lia List Bool Ascii String.
From stdpp Require Import gmap strings pretty list.

Local Open Scope Z_scope.

(** ** Exceptions and results *)

(** The Python exceptions the modelled code can raise. *)
Inductive exn : Type :=
  | ZeroDivisionError
  | OverflowError
  | ValueError
  | KeyError
  | FileNotFoundError
  | NoContentLength      (* Exception("Server does not provide Content-Length ...") *)
  | NonDownloadable.     (* Exception("URL points to non-downloadable content ...") *)

(** A computation that either raises or returns. *)
Definition result (A : Type) : Type := exn + A.

Definition raise {A} (e : exn) : result A := inl e.
Definition ret {A} (a : A) : result A := inr a.
Definition bind {A B} (c : result A) (k : A -> result B) : result B :=
  match c with
  | inl e => inl e
  | inr a => k a
  end.

Notation "'let?' x ':=' c 'in' k" := (bind c (fun x => k))
  (at level 10, x name, c at level 100, k at level 200).

(** ** Part count: [choose_threads] *)

Definition choose_threads (file_size : Z) : Z :=
  if file_size <? 50 * 1024 * 1024 then 1
  else if file_size <? 500 * 1024 * 1024 then
    Z.min 4 (Z.max 2 (file_size / (50 * 1024 * 1024)))
  else
    Z.min 16 (Z.max 4 (file_size / (100 * 1024 * 1024))).

(** ** Backoff: the [wait_time] expression of [download_range] *)

Definition wait_time (downloaded : Z) : Z :=
  Z.min 60 (2 ^ Z.min (downloaded / 1000000) 6).

(** ** Python's [int / int] and [math.ceil]

    [file_size / num_threads] is Python's true division of two integers: the
    exact quotient rounded to the nearest binary64 value, ties to even, with
    [OverflowError] when the rounded quotient does not fit a double.  A finite
    double is kept as its integer significand and binary exponent. *)

Record float : Type := Float { mant : Z; expo : Z }.

(** [floor (log2 (a / b))] for positive [a] and [b]. *)
Definition quotient_exponent (a b : Z) : Z :=
  if b <=? a then Z.log2 (a / b) else - Z.log2_up ((b + a - 1) / a).

(** [num / den] rounded to the nearest integer, ties to the even one. *)
Definition round_half_even (num den : Z) : Z :=
  let m := num / den in
  let r := num mod den in
  if (den <? 2 * r) || ((den =? 2 * r) && Z.odd m) then m + 1 else m.

(** True division of positive integers: 53 significant bits, exponent no
    lower than that of the subnormals. *)
Definition true_divide_pos (a b : Z) : result float :=
  let e := Z.max (quotient_exponent a b - 52) (-1074) in
  let m := round_half_even (a * 2 ^ Z.max 0 (- e)) (b * 2 ^ Z.max 0 e) in
  if 2 ^ 1024 <=? m * 2 ^ Z.max 0 e then raise OverflowError
  else ret (Float m e).

Definition true_divide (a b : Z) : result float :=
  if b =? 0 then raise ZeroDivisionError
  else if a =? 0 then ret (Float 0 0)
  else
    let? x := true_divide_pos (Z.abs a) (Z.abs b) in
    ret (Float (Z.sgn a * Z.sgn b * mant x) (expo x)).

(** [math.ceil] of a finite double. *)
Definition ceil (x : float) : Z :=
  if 0 <=? expo x then mant x * 2 ^ expo x
  else - ((- mant x) / 2 ^ (- expo x)).

(** ** Range planning: lines 98-100 of [download_file_rich] *)

(** [part_size = ceil(file_size / num_threads)] *)
Definition part_size_of (file_size num_threads : Z) : result Z :=
  let? q := true_divide file_size num_threads in
  ret (ceil q).

(** [range(n)] *)
Definition range (n : Z) : list Z := seqZ 0 n.

(** [[(i * part_size, min((i + 1) * part_size - 1, file_size - 1))
      for i in range(num_threads)]] *)
Definition ranges_of (file_size num_threads part_size : Z) : list (Z * Z) :=
  map (fun i => (i * part_size, Z.min ((i + 1) * part_size - 1) (file_size - 1)))
      (range num_threads).

Definition plan (file_size : Z) : result (list (Z * Z)) :=
  let num_threads := choose_threads file_size in
  let? part_size := part_size_of file_size num_threads in
  ret (ranges_of file_size num_threads part_size).


(** ** The environment: files, the shared progress counter, observable events *)

(** What the task does to the outside world, in the order it happens. *)
Inductive event : Type :=
  | EvHead                          (* requests.head(url, allow_redirects=True) *)
  | EvGet (first last : Z)          (* requests.get with "Range: bytes={first}-{last}" *)
  | EvSleep (seconds : Z)           (* time.sleep(wait_time) *)
  | EvAddTask (total completed : Z) (* progress.add_task(filename, total=, completed=) *)
  | EvUpdate (completed : Z).       (* progress.update(task_id, completed=) *)

(** [fs] maps a path to the bytes of the file there; [progress_state] is the
    one-element list [progress_state] shared by the workers of a task. *)
Record world : Type := World {
  fs : gmap string (list Byte.byte);
  progress_state : Z;
  trace : list event
}.

Definition emit (e : event) (w : world) : world :=
  World (fs w) (progress_state w) (trace w ++ [e]).

Definition set_fs (f : gmap string (list Byte.byte)) (w : world) : world :=
  World f (progress_state w) (trace w).

(** [os.path.exists] *)
Definition exists_ (path : string) (w : world) : bool :=
  bool_decide (is_Some (fs w !! path)).

(** Every [os.path.getsize] of the source is guarded by [os.path.exists]. *)
Definition getsize (path : string) (w : world) : Z :=
  match fs w !! path with
  | Some content => Z.of_nat (length content)
  | None => 0
  end.

Definition len (chunk : list Byte.byte) : Z := Z.of_nat (length chunk).

(** [open(path, "ab")]: the file is created empty when it is absent. *)
Definition open_append (path : string) (w : world) : world :=
  match fs w !! path with
  | Some _ => w
  | None => set_fs (<[path := []]> (fs w)) w
  end.

(** [open(path, "wb")]: the file is created or truncated. *)
Definition open_truncate (path : string) (w : world) : world :=
  set_fs (<[path := []]> (fs w)) w.

(** [f.write(data)] on a file opened for writing at its end. *)
Definition write (path : string) (data : list Byte.byte) (w : world) : world :=
  set_fs (<[path := default [] (fs w !! path) ++ data]> (fs w)) w.

(** [os.remove(path)] *)
Definition remove (path : string) (w : world) : world :=
  set_fs (delete path (fs w)) w.

(** ** The progress counter

    [progress_state[0] += len(chunk); update_fn(progress_state[0])], run under
    [progress_lock]: one atomic step. *)
Definition advance (delta : Z) (w : world) : world :=
  let total := progress_state w + delta in
  emit (EvUpdate total) (World (fs w) total (trace w)).

(** ** The part worker: [download_range] *)

(** [f"{filename}.part{part_num}"] *)
Definition part_file (filename : string) (part_num : Z) : string :=
  filename +:+ ".part" +:+ pretty part_num.

(** How the server answers one range request: the request raises before the
    part file is opened ([requests.get] or [raise_for_status]), or the body is
    streamed in chunks and then either ends or raises. *)
Inductive response : Type :=
  | Refused
  | Stream (chunks : list (list Byte.byte)) (complete : bool).

(** The answers of the server to the successive requests of one worker, each
    a function of the requested interval. *)
Definition server : Type := list (Z -> Z -> response).

Inductive status : Type :=
  | Returned
  | Retrying.   (* the answers ran out while the worker was still looping *)

(** The [for chunk in r.iter_content(8192)] loop. *)
Fixpoint write_chunks (path : string) (chunks : list (list Byte.byte))
    (downloaded : Z) (w : world) : Z * world :=
  match chunks with
  | [] => (downloaded, w)
  | [] :: rest => write_chunks path rest downloaded w
  | chunk :: rest =>
      let w := write path chunk w in
      let downloaded := downloaded + len chunk in
      let w := advance (len chunk) w in
      write_chunks path rest downloaded w
  end.

(** The [while downloaded < (end - start + 1)] loop. *)
Fixpoint download_range_loop (srv : server) (path : string) (start end_ : Z)
    (downloaded : Z) (w : world) : status * world :=
  if downloaded <? end_ - start + 1 then
    match srv with
    | [] => (Retrying, w)
    | answer :: srv =>
        let w := emit (EvGet (start + downloaded) end_) w in
        match answer (start + downloaded) end_ with
        | Refused =>
            let w := emit (EvSleep (wait_time downloaded)) w in
            download_range_loop srv path start end_ downloaded w
        | Stream chunks complete =>
            let w := open_append path w in
            let '(downloaded, w) := write_chunks path chunks downloaded w in
            if complete then (Returned, w)
            else
              let w := emit (EvSleep (wait_time downloaded)) w in
              download_range_loop srv path start end_ downloaded w
        end
    end
  else (Returned, w).

(** [download_range(url, filename, start, end, part_num, ...)]: the server
    behind [url] is given by its answers [srv]; the lock, the counter and
    [update_fn] are those of the world. *)
Definition download_range (srv : server) (filename : string) (start end_ : Z)
    (part_num : Z) (w : world) : status * world :=
  let part_file := part_file filename part_num in
  let downloaded := if exists_ part_file w then getsize part_file w else 0 in
  download_range_loop srv part_file start end_ downloaded w.

(** ** The metadata probe: lines 78-92 of [download_file_rich] *)

(** [str.lower] on the ASCII letters; the other Latin-1 letters it changes
    stay outside ASCII and cannot complete an ASCII needle. *)
Definition lower_ascii (c : ascii) : ascii :=
  let n := nat_of_ascii c in
  if (65 <=? n)%nat && (n <=? 90)%nat then ascii_of_nat (n + 32) else c.

Fixpoint lower (s : string) : string :=
  match s with
  | EmptyString => EmptyString
  | String c s => String (lower_ascii c) (lower s)
  end.

(** [needle in s] *)
Fixpoint contains (needle s : string) : bool :=
  String.prefix needle s ||
  match s with
  | EmptyString => false
  | String _ s => contains needle s
  end.

(** The white space that [int] skips at both ends of a string of Latin-1
    characters: tab to carriage return, space, NEL and the no-break space.
    The separators 0x1c to 0x1f, white space for [str.strip], are not. *)
Definition is_space (c : ascii) : bool :=
  let n := nat_of_ascii c in
  ((9 <=? n)%nat && (n <=? 13)%nat) || (n =? 32)%nat
  || (n =? 133)%nat || (n =? 160)%nat.

Fixpoint lstrip (s : string) : string :=
  match s with
  | String c s' => if is_space c then lstrip s' else s
  | EmptyString => s
  end.

Definition strip (s : string) : string :=
  String.rev (lstrip (String.rev (lstrip s))).

Definition digit_of (c : ascii) : option Z :=
  let n := nat_of_ascii c in
  if (48 <=? n)%nat && (n <=? 57)%nat then Some (Z.of_nat n - 48) else None.

(** Decimal digits, single underscores allowed between two digits; returns
    the value and the number of digits. *)
Fixpoint parse_digits (s : string) (acc : Z) (ndigits : Z) (after_digit : bool)
    : option (Z * Z) :=
  match s with
  | EmptyString => if after_digit then Some (acc, ndigits) else None
  | String c s =>
      if Ascii.eqb c "_"%char then
        if after_digit then parse_digits s acc ndigits false else None
      else
        match digit_of c with
        | Some d => parse_digits s (10 * acc + d) (ndigits + 1) true
        | None => None
        end
  end.

(** The default of [sys.int_max_str_digits]. *)
Definition int_max_str_digits : Z := 4300.

(** [int(s)] for a string: optional white space around an optional sign and
    a decimal literal. *)
Definition py_int (s : string) : result Z :=
  let s := strip s in
  let '(sign, body) :=
    match s with
    | String c body =>
        if Ascii.eqb c "-"%char then (-1, body)
        else if Ascii.eqb c "+"%char then (1, body)
        else (1, s)
    | EmptyString => (1, s)
    end in
  match parse_digits body 0 0 false with
  | Some (n, ndigits) =>
      if int_max_str_digits <? ndigits then raise ValueError else ret (sign * n)
  | None => raise ValueError
  end.

(** The answer to the [HEAD] request.  [headers] is the store of the
    case-insensitive dictionary of [requests]: keyed by lower-cased name. *)
Record head_response : Type := HeadResponse {
  status_code : Z;
  headers : gmap string string
}.

(** [response.headers.get(name)] *)
Definition header (name : string) (response : head_response) : option string :=
  headers response !! lower name.

(** Lines 80-92: the checks between the [HEAD] request and the skip test;
    returns [file_size]. *)
Definition probe (response : head_response) : result Z :=
  let content_type := lower (default "" (header "Content-Type" response)) in
  let? _ :=
    if (status_code response <? 200) || (299 <? status_code response) then
      (* print(response.headers['Location'], '\n') *)
      match header "Location" response with
      | Some _ => ret tt
      | None => raise KeyError
      end
    else ret tt in
  let? _ :=
    match header "Content-Length" response with
    | None => raise NoContentLength
    | Some _ => ret tt
    end in
  let? _ :=
    if contains "text/html" content_type || contains "application/json" content_type
    then raise NonDownloadable
    else ret tt in
  py_int (default "" (header "Content-Length" response)).

(** ** The coordinator: [download_file_rich] *)

Inductive task_result : Type :=
  | Completed
  | SkippedAlreadyComplete
  | Failed (e : exn)
  | Unfinished.   (* a part worker is still retrying: the task never returns *)

(** [enumerate(l)] *)
Fixpoint enumerate_from {A} (i : Z) (l : list A) : list (Z * A) :=
  match l with
  | [] => []
  | x :: l => (i, x) :: enumerate_from (i + 1) l
  end.

Definition enumerate {A} (l : list A) : list (Z * A) := enumerate_from 0 l.

(** [sum(...)] *)
Definition py_sum (l : list Z) : Z := foldr Z.add 0 l.

(** Lines 103-105: the bytes already in the part files. *)
Definition already_downloaded (filename : string) (num_threads : Z) (w : world) : Z :=
  py_sum (map (fun i => getsize (part_file filename i) w)
           (filter (fun i => exists_ (part_file filename i) w = true) (range num_threads))).

(** Lines 115-121: the part workers.  They run on a thread pool; each one
    touches its own part file and the shared counter only (under the lock),
    so one schedule stands for all: the parts one after the other.  A worker
    that never returns does not stop the others. *)
Fixpoint run_parts (servers : Z -> server) (filename : string)
    (parts : list (Z * (Z * Z))) (w : world) : status * world :=
  match parts with
  | [] => (Returned, w)
  | (i, (start, end_)) :: parts =>
      let '(s, w) := download_range (servers i) filename start end_ i w in
      let '(s', w) := run_parts servers filename parts w in
      (match s with Returned => s' | Retrying => Retrying end, w)
  end.

(** Lines 126-131: the body of [with open(filename, "wb") as outfile]. *)
Fixpoint merge_parts (filename : string) (parts : list Z) (w : world)
    : result unit * world :=
  match parts with
  | [] => (ret tt, w)
  | i :: parts =>
      let part_file := part_file filename i in
      match fs w !! part_file with
      | None => (raise FileNotFoundError, w)       (* open(part_file, "rb") *)
      | Some content =>
          let w := write filename content w in     (* outfile.write(infile.read()) *)
          let w := remove part_file w in           (* os.remove(part_file) *)
          merge_parts filename parts w
      end
  end.

Definition merge_step (filename : string) (num_threads : Z) (w : world)
    : result unit * world :=
  merge_parts filename (range num_threads) (open_truncate filename w).

(** [download_file_rich(url, filename, executor, progress)]: [response] is
    the answer to the [HEAD] request on [url], [servers i] the answers to the
    range requests of part [i]. *)
Definition download_file_rich (response : head_response) (servers : Z -> server)
    (filename : string) (w : world) : task_result * world :=
  let w := emit EvHead w in
  match probe response with
  | inl e => (Failed e, w)
  | inr file_size =>
      if exists_ filename w && (getsize filename w =? file_size) then
        (SkippedAlreadyComplete, w)
      else
        let num_threads := choose_threads file_size in
        match part_size_of file_size num_threads with
        | inl e => (Failed e, w)
        | inr part_size =>
            let ranges := ranges_of file_size num_threads part_size in
            let already_downloaded := already_downloaded filename num_threads w in
            let w := emit (EvAddTask file_size already_downloaded) w in
            let w := World (fs w) already_downloaded (trace w) in
            match run_parts servers filename (enumerate ranges) w with
            | (Retrying, w) => (Unfinished, w)
            | (Returned, w) =>
                let w := emit (EvUpdate file_size) w in
                match merge_step filename num_threads w with
                | (inl e, w) => (Failed e, w)
                | (inr _, w) => (Completed, w)
                end
            end
        end
  end.

(** ** Observations, and the statements of the specification as definitions *)

(** The range requests among the events, oldest first. *)
Fixpoint requests (t : list event) : list (Z * Z) :=
  match t with
  | [] => []
  | EvGet first last :: t => (first, last) :: requests t
  | _ :: t => requests t
  end.

(** The body bytes a response carries. *)
Definition body (r : response) : list Byte.byte :=
  match r with
  | Refused => []
  | Stream chunks _ => concat chunks
  end.


(** A server that honours the [Range] header: a response carries no more
    than the bytes asked for, and all of them when it ends without error. *)
Definition honours_range (answer : Z -> Z -> response) : Prop :=
  forall first last, first <= last ->
    len (body (answer first last)) <= last - first + 1 /\
    (forall chunks, answer first last = Stream chunks true ->
       len (concat chunks) = last - first + 1).

(** An answer that streams a whole body without error, whatever is asked. *)
Definition completes (answer : Z -> Z -> response) : Prop :=
  forall first last, exists chunks, answer first last = Stream chunks true.

(** A sequence of [advance] calls, in the order the lock serialises them. *)
Definition advance_all (deltas : list Z) (w : world) : world :=
  foldl (fun w delta => advance delta w) w deltas.


(** The bytes of the part files [0 .. k - 1] of [filename], in index order. *)
Definition concat_parts (filename : string) (k : Z) (w : world) : list Byte.byte :=
  concat (map (fun i => default [] (fs w !! part_file filename i)) (range k)).

(** [clamp(x, lo, hi)] *)
Definition clamp (x lo hi : Z) : Z := Z.min hi (Z.max lo x).

Definition MiB : Z := 1024 * 1024.

(** The documented tiers of the part count. *)
Definition documented_part_count (size : Z) : Z :=
  if size <? 50 * MiB then 1
  else if size <? 500 * MiB then clamp (size / (50 * MiB)) 2 4
  else clamp (size / (100 * MiB)) 4 16.

(** The documented backoff: [min(64, 2^min(downloaded / 1_000_000, 6))]. *)
Definition documented_wait (downloaded : Z) : Z :=
  Z.min 64 (2 ^ Z.min (downloaded / 1000000) 6).

(** The ranges [rs], in order, are non-empty, each starts right after the
    previous one ends, the first starts at [lo] and the last ends at
    [hi - 1]. *)
Fixpoint tiles (lo hi : Z) (rs : list (Z * Z)) : Prop :=
  match rs with
  | [] => lo = hi
  | (s, e) :: rs => s = lo /\ s <= e /\ tiles (e + 1) hi rs
  end.

(** Offset [x] lies in the range [r]. *)
Definition covers (r : Z * Z) (x : Z) : Prop := fst r <= x <= snd r.

(** ** A server that holds a resource *)

(** The bytes of [data] at offsets [first .. last]. *)
Definition slice (data : list Byte.byte) (first last : Z) : list Byte.byte :=
  take (Z.to_nat (last - first + 1)) (drop (Z.to_nat first) data).

(** An answer of a server that holds [data] and honours the range header:
    it streams bytes of the interval asked for, from its first offset on, and
    all of them when it ends without error. *)
Definition serves (data : list Byte.byte) (answer : Z -> Z -> response) : Prop :=
  forall first last, 0 <= first <= last -> last < len data ->
    body (answer first last) `prefix_of` slice data first last /\
    (forall chunks, answer first last = Stream chunks true ->
       concat chunks = slice data first last).

(** An answer of a server that ignores the range header: whatever interval
    is asked for, it streams the whole of [data] and ends without error. *)
Definition ignores_range (data : list Byte.byte) (answer : Z -> Z -> response)
    : Prop :=
  forall first last, exists chunks,
    answer first last = Stream chunks true /\ concat chunks = data.

(** Every part file of the task that exists holds the first bytes of the
    range planned for it: what an earlier, interrupted run against the same
    resource leaves behind. *)
Definition resumable (data : list Byte.byte) (filename : string) (w : world)
    : Prop :=
  forall rs (i : nat) r,
    plan (len data) = ret rs -> rs !! i = Some r ->
    default [] (fs w !! part_file filename (Z.of_nat i))
      `prefix_of` slice data (fst r) (snd r).

(** ** File names: [get_filepath] and [checkInputFiles] *)

(** [s.split(sep)] for a non-empty [sep]: the pieces between the
    occurrences of [sep], found from left to right without overlap.  [skip]
    counts the characters of a separator that remain to be passed. *)
Fixpoint split_go (sep s : string) (skip : nat) : list string :=
  match s with
  | EmptyString => [EmptyString]
  | String c s' =>
      match skip with
      | S k => split_go sep s' k
      | O =>
          if String.prefix sep s then
            EmptyString :: split_go sep s' (String.length sep - 1)
          else
            match split_go sep s' 0 with
            | piece :: pieces => String c piece :: pieces
            | [] => [String c EmptyString]
            end
      end
  end.

Definition str_split (sep s : string) : list string := split_go sep s 0.

(** [pieces[-1]] of the list [str_split] returns, which is never empty. *)
Definition last_piece (pieces : list string) : string :=
  default EmptyString (last pieces).

(** [s.replace(old, new)] for a non-empty [old]. *)
Fixpoint replace_go (old new s : string) (skip : nat) : string :=
  match s with
  | EmptyString => EmptyString
  | String c s' =>
      match skip with
      | S k => replace_go old new s' k
      | O =>
          if String.prefix old s then
            new +:+ replace_go old new s' (String.length old - 1)
          else String c (replace_go old new s' 0)
      end
  end.

Definition str_replace (old new s : string) : string := replace_go old new s 0.

(** [s[:n]] and [s[n:]] for [n >= 0]. *)
Fixpoint take_str (n : nat) (s : string) : string :=
  match n, s with
  | S n, String c s => String c (take_str n s)
  | _, _ => EmptyString
  end.

Fixpoint drop_str (n : nat) (s : string) : string :=
  match n, s with
  | S n, String _ s => drop_str n s
  | _, _ => s
  end.

(** The double quote character. *)
Definition dquote : ascii := ascii_of_nat 34.

(** Lines 180-185 of [get_filepath]: what is done to the file name. *)
Definition clean_filename (filename : string) : string :=
  let filename := str_replace "%20" " " filename in
  let filename := str_replace "%5B" "[" filename in
  let filename := str_replace "%5D" "]" filename in
  let filename := str_replace (String dquote EmptyString) EmptyString filename in
  if (205 <? String.length filename)%nat then
    take_str 200 filename +:+ drop_str (String.length filename - 4) filename
  else filename.

Section Paths.

(** [str(Path(dir_path).joinpath(filename))], left to [pathlib]. *)
Variable joinpath : string -> string -> string.

(** The directory of the script, [SCRIPT_DIR]. *)
Variable SCRIPT_DIR : string.

(** [get_filepath(url, dir_path, ep)] for a [dir_path] that is a string;
    [response] is the answer to the [HEAD] request made when [ep] is set.
    A [dir_path] of [None] ([Path(None)] raises [TypeError]) and a [HEAD]
    request that raises are outside this definition. *)
Definition get_filepath (response : head_response) (url dir_path : string)
    (ep : bool) : result string :=
  let? filename :=
    if ep then
      match header "Content-Disposition" response with
      | Some value => ret (last_piece (str_split "filename=" value))
      | None => raise KeyError
      end
    else ret (last_piece (str_split "/" url)) in
  ret (joinpath dir_path (clean_filename filename)).

Definition TXT_DATA_FILEPATH : string := joinpath SCRIPT_DIR "url_inputs.txt".
Definition JSON_DATA_FILEPATH : string := joinpath SCRIPT_DIR "url_inputs.json".
Definition UNFINISHED_DOWNLOADS_FILEPATH : string :=
  joinpath SCRIPT_DIR "unfinished_downloads.json".

(** [Path.touch()]: an absent file is created empty, a present one keeps
    its content. *)
Definition touch (path : string) (w : world) : world := open_append path w.

(** [checkInputFiles()] *)
Definition checkInputFiles (w : world) : world :=
  foldl (fun w path => if negb (exists_ path w) then touch path w else w) w
    [TXT_DATA_FILEPATH; JSON_DATA_FILEPATH; UNFINISHED_DOWNLOADS_FILEPATH].

End Paths.

(** The character [c] occurs in [s]. *)
Fixpoint occurs (c : ascii) (s : string) : Prop :=
  match s with
  | EmptyString => False
  | String a s => a = c \/ occurs c s
  end.

(** * Properties *)

(** ** Part count *)

Ltac div_lia := Z.to_euclidean_division_equations; lia.

Lemma choose_threads_bounds (size : Z) :
  1 <= choose_threads size <= 16.
Proof.
  unfold choose_threads.
  destruct (size <? 50 * 1024 * 1024); [lia|].
  destruct (size <? 500 * 1024 * 1024); lia.
Qed.

Lemma choose_threads_small (size : Z) :
  size < 50 * 1024 * 1024 -> choose_threads size = 1.
Proof.
  intros H. unfold choose_threads.
  destruct (Z.ltb_spec size (50 * 1024 * 1024)); [reflexivity | lia].
Qed.

Lemma choose_threads_large (size : Z) :
  50 * 1024 * 1024 <= size -> 2 <= choose_threads size <= 16.
Proof.
  intros H. unfold choose_threads.
  destruct (Z.ltb_spec size (50 * 1024 * 1024)); [lia|].
  destruct (size <? 500 * 1024 * 1024); lia.
Qed.

Lemma choose_threads_mono (s1 s2 : Z) :
  s1 <= s2 -> choose_threads s1 <= choose_threads s2.
Proof.
  intros H. unfold choose_threads.
  destruct (Z.ltb_spec s1 (50 * 1024 * 1024)),
           (Z.ltb_spec s2 (50 * 1024 * 1024)),
           (Z.ltb_spec s1 (500 * 1024 * 1024)),
           (Z.ltb_spec s2 (500 * 1024 * 1024)); try lia; div_lia.
Qed.

(** C4: the part count is the documented step function of the size (1 part
    below 50 MiB, [clamp(size / 50MiB, 2, 4)] below 500 MiB,
    [clamp(size / 100MiB, 4, 16)] from 500 MiB on), it never decreases when
    the size grows, and it takes the documented values at 10 MiB, 100 MiB,
    1 GiB and 2 GiB. *)
Theorem choose_threads_tiers (s1 s2 : Z) (Hle : s1 <= s2) :
  choose_threads s1 = documented_part_count s1 /\
  choose_threads s1 <= choose_threads s2 /\
  choose_threads (10 * MiB) = 1 /\
  2 <= choose_threads (100 * MiB) <= 4 /\
  4 <= choose_threads (1024 * MiB) <= 10 /\
  choose_threads (2048 * MiB) = 16.
Proof.
  split; [reflexivity|].
  split; [by apply choose_threads_mono|].
  vm_compute. repeat split; discriminate.
Qed.

Lemma choose_threads_tiers_witness :
  499 * MiB <= 500 * MiB /\
  choose_threads (499 * MiB) = 4 /\ choose_threads (500 * MiB) = 5 /\
  choose_threads (499 * MiB) <= choose_threads (500 * MiB).
Proof.
  assert (H : 499 * MiB <= 500 * MiB) by (vm_compute; discriminate).
  split; [exact H|].
  split; [reflexivity|]. split; [reflexivity|].
  exact (proj1 (proj2 (choose_threads_tiers (499 * MiB) (500 * MiB) H))).
Defined.

(** ** Backoff *)

Lemma wait_time_below_cap (downloaded : Z) :
  0 <= downloaded < 6000000 ->
  wait_time downloaded = 2 ^ (downloaded / 1000000) /\
  wait_time downloaded = documented_wait downloaded.
Proof.
  intros H. unfold wait_time, documented_wait.
  assert (Hq : 0 <= downloaded / 1000000 <= 5) by div_lia.
  rewrite (Z.min_l _ 6) by lia.
  assert (Hp : 2 ^ (downloaded / 1000000) <= 2 ^ 5)
    by (apply Z.pow_le_mono_r; lia).
  change (2 ^ 5) with 32 in Hp. lia.
Qed.

Lemma wait_time_at_cap (downloaded : Z) :
  6000000 <= downloaded ->
  wait_time downloaded = 60 /\ documented_wait downloaded = 64.
Proof.
  intros H. unfold wait_time, documented_wait.
  assert (Hq : 6 <= downloaded / 1000000) by div_lia.
  rewrite (Z.min_r _ 6) by lia. split; reflexivity.
Qed.

(** C3: with 6 MB banked in the part file the worker waits 60 seconds before
    it retries, where the documented backoff (and the comment on the source
    line, "up to 64s") gives 64. *)
Theorem wait_time_cap_is_60 :
  wait_time 6000000 = 60 /\ documented_wait 6000000 = 64.
Proof. split; reflexivity. Qed.

(** ** True division and ceiling *)

Section TrueDivide.

Variables a b : Z.
Hypothesis Hb : 0 < b.
Hypothesis Hab : b <= a.

Lemma quotient_exponent_eq : quotient_exponent a b = Z.log2 (a / b).
Proof.
  unfold quotient_exponent. destruct (Z.leb_spec b a); [reflexivity | lia].
Qed.

Lemma quotient_pos : 1 <= a / b.
Proof. apply Z.div_le_lower_bound; lia. Qed.

Lemma exponent_nonneg : 0 <= Z.log2 (a / b).
Proof. apply Z.log2_nonneg. Qed.

(** [2^E <= a / b] as a rational. *)
Lemma exponent_lower : 2 ^ Z.log2 (a / b) * b <= a.
Proof.
  pose proof quotient_pos as Hq.
  destruct (Z.log2_spec (a / b)) as [Hl _]; [lia|].
  pose proof (Z.mul_div_le a b Hb). nia.
Qed.

Lemma true_divide_eq :
  true_divide a b = true_divide_pos a b.
Proof.
  unfold true_divide.
  destruct (Z.eqb_spec b 0); [lia|]. destruct (Z.eqb_spec a 0); [lia|].
  rewrite !Z.abs_eq by lia.
  destruct (true_divide_pos a b) as [e|[m e]]; simpl; [reflexivity|].
  rewrite !Z.sgn_pos by lia. f_equal. f_equal. lia.
Qed.

End TrueDivide.

(** The model on known doubles: [1 / 3 = 0x1.5555555555555p-2], a tie that
    goes to the even significand, and a quotient too large for a double. *)
Example true_divide_third :
  true_divide 1 3 = ret (Float 6004799503160661 (-54)).
Proof. vm_compute. reflexivity. Qed.

Example true_divide_tie :
  true_divide (2 ^ 53 + 1) 16 = ret (Float (2 ^ 52) (-3)) /\
  ceil (Float (2 ^ 52) (-3)) = 2 ^ 49.
Proof. split; vm_compute; reflexivity. Qed.

Example true_divide_overflow :
  true_divide (10 ^ 400) 16 = raise OverflowError.
Proof. vm_compute. reflexivity. Qed.

Lemma round_half_even_cases (num den : Z) :
  0 < den ->
  let m := round_half_even num den in
  (m = num / den /\ 2 * (num mod den) <= den) \/
  (m = num / den + 1 /\ den <= 2 * (num mod den)).
Proof.
  intros Hden. unfold round_half_even. cbv zeta.
  destruct (Z.ltb_spec den (2 * (num mod den))); simpl; [right; lia|].
  destruct (Z.eqb_spec den (2 * (num mod den))); simpl; [|left; lia].
  destruct (Z.odd (num / den)); [right | left]; lia.
Qed.

(** With a scale [P] whose double exceeds the divisor, rounding [a * P / b] to
    the nearest integer and dividing by [P] again, upwards, gives the exact
    ceiling of [a / b]. *)
Lemma round_then_ceil (a b P : Z) :
  0 <= a -> 0 < b -> 0 < P -> b < 2 * P ->
  - (- round_half_even (a * P) b / P) = (a + b - 1) / b.
Proof.
  intros Ha Hb HP HbP.
  set (c := (a + b - 1) / b).
  assert (Hc : (c - 1) * b < a <= c * b).
  { pose proof (Z.div_mod (a + b - 1) b ltac:(lia)) as Hdm.
    pose proof (Z.mod_pos_bound (a + b - 1) b Hb). fold c in Hdm. nia. }
  pose proof (Z.div_mod (a * P) b ltac:(lia)) as Hdm.
  pose proof (Z.mod_pos_bound (a * P) b Hb) as Hr.
  set (m := round_half_even (a * P) b).
  assert (Hm : (c - 1) * P < m <= c * P).
  { destruct (round_half_even_cases (a * P) b Hb) as [[Hm Hle]|[Hm Hge]];
      fold m in Hm; rewrite Hm;
      set (m0 := a * P / b) in *; set (r := (a * P) mod b) in *.
    - split.
      + (* not rounded up: the remainder is below [P] *)
        assert (H1 : b * ((c - 1) * P) + P <= b * m0 + r) by nia.
        destruct (Z_lt_le_dec ((c - 1) * P) m0); [lia|].
        assert (m0 = (c - 1) * P) by nia. nia.
      + assert (b * m0 <= b * (c * P)) by nia.
        apply Z.mul_le_mono_pos_l with b; lia.
    - split.
      + assert (H1 : b * ((c - 1) * P) + P <= b * m0 + r) by nia.
        destruct (Z_lt_le_dec ((c - 1) * P) (m0 + 1)); [lia|]. nia.
      + assert (b * m0 < b * (c * P)) by nia.
        assert (m0 < c * P) by (apply Z.mul_lt_mono_pos_l with b; lia). lia. }
  assert (Hq : - m / P = - c).
  { symmetry. apply Z.div_unique with (- m + c * P); lia. }
  rewrite Hq. lia.
Qed.

(** Below [2^53] the part size is the exact ceiling of [file_size / n]. *)
Lemma part_size_exact (a b : Z) :
  0 < b -> b <= a -> a < 2 ^ 53 ->
  part_size_of a b = ret ((a + b - 1) / b).
Proof.
  intros Hb Hab Ha.
  unfold part_size_of. rewrite true_divide_eq by lia.
  unfold true_divide_pos. rewrite quotient_exponent_eq by lia.
  pose proof (exponent_nonneg a b) as HE0.
  pose proof (exponent_lower a b Hb Hab) as HEl.
  set (E := Z.log2 (a / b)) in *.
  assert (HE : E <= 52).
  { destruct (Z_le_gt_dec E 52); [assumption|].
    assert (2 ^ 53 <= 2 ^ E) by (apply Z.pow_le_mono_r; lia). nia. }
  rewrite (Z.max_l (E - 52) (-1074)) by lia.
  rewrite (Z.max_l 0 (E - 52)) by lia.
  rewrite (Z.max_r 0 (- (E - 52))) by lia.
  change (2 ^ 0) with 1. rewrite !Z.mul_1_r.
  set (P := 2 ^ (- (E - 52))).
  assert (HP : 0 < P) by (apply Z.pow_pos_nonneg; lia).
  assert (HbP : b < 2 * P).
  { assert (HPE : 2 ^ E * (2 * P) = 2 ^ 53).
    { unfold P. rewrite <- (Z.pow_succ_r 2 (- (E - 52))) by lia.
      rewrite <- Z.pow_add_r by lia. f_equal. lia. }
    assert (0 < 2 ^ E) by (apply Z.pow_pos_nonneg; lia). nia. }
  pose proof (round_then_ceil a b P ltac:(lia) Hb HP HbP) as Hceil.
  set (m := round_half_even (a * P) b) in *.
  assert (Hm : m < 2 ^ 1024).
  { destruct (round_half_even_cases (a * P) b Hb) as [[Hm _]|[Hm _]];
      fold m in Hm; rewrite Hm.
    all: assert (0 <= a * P) by (apply Z.mul_nonneg_nonneg; lia).
    all: assert (a * P / b <= a * P)
      by (apply Z.div_le_upper_bound; [lia|];
          rewrite <- (Z.mul_1_l (a * P)) at 1;
          apply Z.mul_le_mono_nonneg_r; lia).
    all: assert (P <= 2 ^ 52) by (apply Z.pow_le_mono_r; lia).
    all: assert (a * P <= 2 ^ 53 * 2 ^ 52) by nia.
    all: assert (2 ^ 53 * 2 ^ 52 + 1 < 2 ^ 1024) by (vm_compute; reflexivity).
    all: lia. }
  destruct (Z.leb_spec (2 ^ 1024) m); [lia|].
  simpl. unfold ret. f_equal. unfold ceil. simpl.
  destruct (Z.leb_spec 0 (E - 52)).
  - assert (E = 52) by lia. subst P.
    replace (- (E - 52)) with 0 in * by lia. replace (E - 52) with 0 by lia.
    change (2 ^ 0) with 1 in *. rewrite Z.div_1_r in Hceil. lia.
  - exact Hceil.
Qed.

Lemma ceil_nonpos_expo (m e : Z) :
  e <= 0 -> ceil (Float m e) = - (- m / 2 ^ (- e)).
Proof.
  intros He. unfold ceil. simpl. destruct (Z.leb_spec 0 e); [|reflexivity].
  replace e with 0 by lia. change (2 ^ (- 0)) with 1. change (2 ^ 0) with 1.
  rewrite Z.div_1_r. lia.
Qed.

(** At every size the part size is positive and exceeds the exact quotient
    by at most one unit plus one part in [2^52]. *)
Lemma part_size_bounds (a b ps : Z) :
  0 < b -> b <= a -> part_size_of a b = ret ps ->
  1 <= ps /\ 2 ^ 52 * (b * ps) <= (2 ^ 52 + 1) * a + 2 ^ 52 * b.
Proof.
  intros Hb Hab. unfold part_size_of. rewrite true_divide_eq by lia.
  unfold true_divide_pos. rewrite quotient_exponent_eq by lia.
  pose proof (exponent_nonneg a b) as HE0.
  pose proof (exponent_lower a b Hb Hab) as HEl.
  set (E := Z.log2 (a / b)) in *.
  rewrite (Z.max_l (E - 52) (-1074)) by lia.
  assert (H52 : 0 < 2 ^ 52) by (vm_compute; reflexivity).
  destruct (Z_le_gt_dec E 52) as [HE|HE].
  - (* the quotient is below [2^53]: scaled up by [P] before rounding *)
    rewrite (Z.max_l 0 (E - 52)) by lia.
    rewrite (Z.max_r 0 (- (E - 52))) by lia.
    change (2 ^ 0) with 1. rewrite !Z.mul_1_r.
    set (P := 2 ^ (- (E - 52))).
    assert (HP : 0 < P) by (apply Z.pow_pos_nonneg; lia).
    set (m := round_half_even (a * P) b).
    destruct (2 ^ 1024 <=? m); simpl; [discriminate|].
    unfold ret. intros [= <-]. rewrite ceil_nonpos_expo by lia. fold P.
    pose proof (Z.div_mod (- m) P ltac:(lia)) as Hdm.
    pose proof (Z.mod_pos_bound (- m) P HP) as Hr.
    pose proof (Z.div_mod (a * P) b ltac:(lia)) as Hdm'.
    pose proof (Z.mod_pos_bound (a * P) b Hb) as Hr'.
    assert (Hm0 : 1 <= a * P / b) by (apply Z.div_le_lower_bound; nia).
    set (t := - m / P) in *.
    assert (Hm : a * P / b <= m <= a * P / b + 1)
      by (destruct (round_half_even_cases (a * P) b Hb) as [[Hm _]|[Hm _]];
          fold m in Hm; lia).
    set (m0 := a * P / b) in *.
    assert (Hps : 1 <= - t) by nia.
    split; [exact Hps|].
    assert (Hb1 : b * (- t - 1) <= a).
    { assert ((- t - 1) * P <= m0) by nia.
      assert (b * ((- t - 1) * P) <= b * m0) by (apply Z.mul_le_mono_nonneg_l; lia).
      assert (b * (- t - 1) * P <= a * P) by nia.
      apply Z.mul_le_mono_pos_r with P; [lia|]. lia. }
    nia.
  - (* the quotient is at least [2^53]: the divisor is scaled by [Q] *)
    rewrite (Z.max_r 0 (E - 52)) by lia.
    rewrite (Z.max_l 0 (- (E - 52))) by lia.
    change (2 ^ 0) with 1. rewrite !Z.mul_1_r.
    set (Q := 2 ^ (E - 52)) in *.
    assert (HQ : 0 < Q) by (apply Z.pow_pos_nonneg; lia).
    assert (HEQ : 2 ^ E = 2 ^ 52 * Q).
    { unfold Q. rewrite <- Z.pow_add_r by lia. f_equal. lia. }
    set (m := round_half_even a (b * Q)).
    destruct (2 ^ 1024 <=? m * Q); simpl; [discriminate|].
    unfold ret. intros [= <-]. unfold ceil. simpl.
    destruct (Z.leb_spec 0 (E - 52)); [|lia]. fold Q.
    assert (HbQ : 0 < b * Q) by nia.
    pose proof (Z.div_mod a (b * Q) ltac:(lia)) as Hdm'.
    pose proof (Z.mod_pos_bound a (b * Q) HbQ) as Hr'.
    assert (Hm0 : 1 <= a / (b * Q)) by (apply Z.div_le_lower_bound; nia).
    assert (Hm : a / (b * Q) <= m <= a / (b * Q) + 1)
      by (destruct (round_half_even_cases a (b * Q) HbQ) as [[Hm _]|[Hm _]];
          fold m in Hm; lia).
    set (m0 := a / (b * Q)) in *.
    split; [nia|].
    assert (Hb1 : b * (m * Q) <= a + b * Q) by nia.
    rewrite HEQ in HEl. nia.
Qed.

(** The true division overflows only for quotients that no double holds:
    below [2^1023] the part size is always computed. *)
Lemma part_size_defined (a b : Z) :
  0 < b -> b <= a -> a < 2 ^ 1023 ->
  exists ps, part_size_of a b = ret ps.
Proof.
  intros Hb Hab Ha. unfold part_size_of. rewrite true_divide_eq by lia.
  unfold true_divide_pos. rewrite quotient_exponent_eq by lia.
  pose proof (exponent_nonneg a b) as HE0.
  pose proof (quotient_pos a b Hb Hab) as Hq.
  destruct (Z.log2_spec (a / b) ltac:(lia)) as [_ Hup].
  assert (HE : Z.log2 (a / b) < 1023).
  { apply Z.log2_lt_pow2; [lia|].
    assert (a / b <= a) by (apply Z.div_le_upper_bound; nia). lia. }
  set (E := Z.log2 (a / b)) in *.
  assert (Hub : a < 2 ^ Z.succ E * b).
  { pose proof (Z.div_mod a b ltac:(lia)). pose proof (Z.mod_pos_bound a b Hb). nia. }
  rewrite (Z.max_l (E - 52) (-1074)) by lia.
  assert (H53 : 2 ^ 53 < 2 ^ 1024) by (vm_compute; reflexivity).
  destruct (Z_le_gt_dec E 52) as [HE52|HE52].
  - rewrite (Z.max_l 0 (E - 52)) by lia.
    rewrite (Z.max_r 0 (- (E - 52))) by lia.
    change (2 ^ 0) with 1. rewrite !Z.mul_1_r.
    set (P := 2 ^ (- (E - 52))).
    assert (HP : 0 < P) by (apply Z.pow_pos_nonneg; lia).
    assert (HPE : 2 ^ Z.succ E * P = 2 ^ 53).
    { unfold P. rewrite <- Z.pow_add_r by lia. f_equal. lia. }
    assert (Hm0 : a * P / b < 2 ^ 53) by (apply Z.div_lt_upper_bound; nia).
    destruct (round_half_even_cases (a * P) b Hb) as [[Hm _]|[Hm _]];
      rewrite Hm;
      (destruct (Z.leb_spec (2 ^ 1024) (a * P / b)) as [?|?];
       destruct (Z.leb_spec (2 ^ 1024) (a * P / b + 1)) as [?|?]; try lia);
      simpl; by eexists.
  - rewrite (Z.max_r 0 (E - 52)) by lia.
    rewrite (Z.max_l 0 (- (E - 52))) by lia.
    change (2 ^ 0) with 1. rewrite !Z.mul_1_r.
    set (Q := 2 ^ (E - 52)) in *.
    assert (HQ : 0 < Q) by (apply Z.pow_pos_nonneg; lia).
    assert (HEQ : 2 ^ Z.succ E = 2 ^ 53 * Q).
    { unfold Q. rewrite <- Z.pow_add_r by lia. f_equal. lia. }
    assert (HbQ : 0 < b * Q) by nia.
    assert (Hm0 : a / (b * Q) < 2 ^ 53) by (apply Z.div_lt_upper_bound; nia).
    assert (Hm : round_half_even a (b * Q) <= 2 ^ 53)
      by (destruct (round_half_even_cases a (b * Q) HbQ) as [[Hm _]|[Hm _]]; lia).
    assert (HQE : 2 ^ Z.succ E <= 2 ^ 1023) by (apply Z.pow_le_mono_r; lia).
    assert (H1023 : 2 ^ 1023 < 2 ^ 1024) by (vm_compute; reflexivity).
    destruct (Z.leb_spec (2 ^ 1024) (round_half_even a (b * Q) * Q)) as [Hov|?];
      [|simpl; by eexists].
    assert (round_half_even a (b * Q) * Q <= 2 ^ 53 * Q)
      by (apply Z.mul_le_mono_nonneg_r; lia).
    lia.
Qed.

(** ** Range planning *)

Lemma ranges_of_length (size n ps : Z) :
  length (ranges_of size n ps) = Z.to_nat n.
Proof. unfold ranges_of, range. by rewrite length_map, length_seqZ. Qed.

Lemma ranges_of_lookup (size n ps : Z) (i : nat) (r : Z * Z) :
  ranges_of size n ps !! i = Some r ->
  Z.of_nat i < n /\
  r = (Z.of_nat i * ps, Z.min ((Z.of_nat i + 1) * ps - 1) (size - 1)).
Proof.
  unfold ranges_of, range. rewrite list_lookup_fmap.
  destruct (seqZ 0 n !! i) as [j|] eqn:Hj; [|discriminate].
  apply lookup_seqZ in Hj as [-> Hlt]. simpl. intros [= <-].
  split; [lia|]. by rewrite Z.add_0_l.
Qed.

(** Every planned range holds at least one byte as soon as the part size is
    positive and the last range starts inside the file. *)
Lemma ranges_of_nonempty (size n ps : Z) :
  1 <= ps -> (n - 1) * ps <= size - 1 ->
  Forall (fun r => fst r <= snd r) (ranges_of size n ps).
Proof.
  intros Hps Hn. apply Forall_lookup_2. intros i r Hr.
  apply ranges_of_lookup in Hr as [Hi ->]. simpl.
  assert (Z.of_nat i * ps <= (n - 1) * ps) by nia. lia.
Qed.

Lemma ranges_of_tiles_from (size n ps : Z) (k : nat) (i : Z) :
  1 <= ps -> (n - 1) * ps <= size - 1 -> size <= n * ps ->
  0 <= i -> i + Z.of_nat (S k) = n ->
  tiles (i * ps) size
    (map (fun i => (i * ps, Z.min ((i + 1) * ps - 1) (size - 1)))
         (seqZ i (Z.of_nat (S k)))).
Proof.
  intros Hps Hn Hcov. revert i. induction k as [|k IH]; intros i Hi Hik.
  - rewrite seqZ_cons by lia. rewrite seqZ_nil by lia. simpl.
    replace (i + 1) with n by lia. split; [reflexivity|].
    assert (i * ps <= (n - 1) * ps) by nia. lia.
  - rewrite seqZ_cons by lia. simpl map. cbn [tiles].
    assert (Hlt : (i + 1) * ps <= (n - 1) * ps) by nia.
    split; [reflexivity|]. split; [nia|].
    rewrite Z.min_l by lia.
    replace ((i + 1) * ps - 1 + 1) with (Z.succ i * ps) by lia.
    replace (Z.pred (Z.of_nat (S (S k)))) with (Z.of_nat (S k)) by lia.
    apply IH; lia.
Qed.

Lemma ranges_of_tiles (size n ps : Z) :
  1 <= n -> 1 <= ps -> (n - 1) * ps <= size - 1 -> size <= n * ps ->
  tiles 0 size (ranges_of size n ps).
Proof.
  intros Hn Hps Hlast Hcov. unfold ranges_of, range.
  pose proof (ranges_of_tiles_from size n ps (Z.to_nat (n - 1)) 0
                Hps Hlast Hcov ltac:(lia) ltac:(lia)) as H.
  replace (Z.of_nat (S (Z.to_nat (n - 1)))) with n in H by lia.
  exact H.
Qed.

(** What tiling means offset by offset. *)
Lemma tiles_bounds (lo hi : Z) (rs : list (Z * Z)) :
  tiles lo hi rs -> lo <= hi.
Proof.
  revert lo. induction rs as [|[s e] rs IH]; simpl; intros lo H; [lia|].
  destruct H as (-> & Hse & Hrest). apply IH in Hrest. lia.
Qed.

Lemma tiles_cover (lo hi : Z) (rs : list (Z * Z)) (x : Z) :
  tiles lo hi rs ->
  (lo <= x < hi <-> exists r, r ∈ rs /\ covers r x).
Proof.
  revert lo. induction rs as [|[s e] rs IH]; simpl; intros lo H.
  - split; [lia|]. intros (r & Hr & _). by apply elem_of_nil in Hr.
  - destruct H as (-> & Hse & Hrest).
    pose proof (tiles_bounds _ _ _ Hrest) as Hb.
    specialize (IH _ Hrest). split.
    + intros Hx. destruct (Z_le_gt_dec x e).
      * exists (lo, e). split; [left|]. unfold covers; simpl; lia.
      * destruct (proj1 IH ltac:(lia)) as (r & Hr & Hc).
        exists r. split; [by right | done].
    + intros (r & Hr & Hc). apply elem_of_cons in Hr as [->|Hr].
      * unfold covers in Hc; simpl in Hc. lia.
      * assert (e + 1 <= x < hi) by (apply IH; eauto). lia.
Qed.

Lemma tiles_lookup_bounds (lo hi : Z) (rs : list (Z * Z)) (i : nat) (r : Z * Z) :
  tiles lo hi rs -> rs !! i = Some r -> lo <= fst r /\ snd r < hi.
Proof.
  revert lo i. induction rs as [|[s e] rs IH]; simpl; intros lo i H Hi;
    [discriminate|].
  destruct H as (-> & Hse & Hrest).
  pose proof (tiles_bounds _ _ _ Hrest). destruct i as [|i]; simpl in Hi.
  - injection Hi as <-. simpl. lia.
  - destruct (IH _ _ Hrest Hi). lia.
Qed.

Lemma tiles_disjoint (lo hi : Z) (rs : list (Z * Z)) (i j : nat)
    (r1 r2 : Z * Z) (x : Z) :
  tiles lo hi rs -> rs !! i = Some r1 -> rs !! j = Some r2 ->
  covers r1 x -> covers r2 x -> i = j.
Proof.
  revert lo i j. induction rs as [|[s e] rs IH]; simpl; intros lo i j H Hi Hj;
    [discriminate|].
  destruct H as (-> & Hse & Hrest). unfold covers. intros H1 H2.
  destruct i as [|i], j as [|j]; simpl in Hi, Hj; [reflexivity| | |].
  - injection Hi as <-. simpl in H1.
    destruct (tiles_lookup_bounds _ _ _ _ _ Hrest Hj). lia.
  - injection Hj as <-. simpl in H2.
    destruct (tiles_lookup_bounds _ _ _ _ _ Hrest Hi). lia.
  - f_equal. by apply (IH (e + 1) i j).
Qed.

Lemma tiles_last (lo hi : Z) (rs : list (Z * Z)) (r : Z * Z) :
  tiles lo hi rs -> last rs = Some r -> snd r = hi - 1.
Proof.
  revert lo. induction rs as [|[s e] rs IH]; simpl; intros lo H Hl;
    [discriminate|].
  destruct H as (-> & Hse & Hrest). destruct rs as [|r' rs].
  - simpl in *. injection Hl as <-. simpl. lia.
  - by apply (IH (e + 1)).
Qed.

Lemma choose_threads_le_size (size : Z) :
  0 < size -> choose_threads size <= size.
Proof.
  intros H. destruct (Z_lt_le_dec size (50 * 1024 * 1024)).
  - rewrite choose_threads_small by lia. lia.
  - pose proof (choose_threads_large size ltac:(lia)). lia.
Qed.

(** [n * (n - 1) < file_size] in every tier. *)
Lemma choose_threads_square (size : Z) :
  0 < size -> choose_threads size * (choose_threads size - 1) < size.
Proof.
  intros H. destruct (Z_lt_le_dec size (50 * 1024 * 1024)).
  - rewrite choose_threads_small by lia. lia.
  - pose proof (choose_threads_large size ltac:(lia)). nia.
Qed.

(** Whatever the rounding of the true division does, the part size is
    positive and the last part starts inside the file. *)
Lemma planned_part_size (size ps : Z) :
  0 < size ->
  part_size_of size (choose_threads size) = ret ps ->
  1 <= ps /\ (choose_threads size - 1) * ps <= size - 1.
Proof.
  intros Hsize Hps.
  pose proof (choose_threads_le_size size Hsize) as Hle.
  pose proof (choose_threads_bounds size) as Hn.
  destruct (part_size_bounds size (choose_threads size) ps ltac:(lia) Hle Hps)
    as [H1 Hub].
  split; [exact H1|].
  destruct (Z_lt_le_dec size (50 * 1024 * 1024)) as [Hs|Hs].
  - rewrite choose_threads_small by lia. lia.
  - pose proof (choose_threads_large size Hs) as Hn2.
    set (n := choose_threads size) in *.
    change (2 ^ 52) with 4503599627370496 in Hub.
    assert (Hcases : n = 1 \/ n = 2 \/ n = 3 \/ n = 4 \/ n = 5 \/ n = 6 \/
              n = 7 \/ n = 8 \/ n = 9 \/ n = 10 \/ n = 11 \/ n = 12 \/
              n = 13 \/ n = 14 \/ n = 15 \/ n = 16) by lia.
    clearbody n.
    repeat (destruct Hcases as [->|Hcases]; [lia|]). subst n. lia.
Qed.

(** Below [2^53] bytes the planned ranges tile the file. *)
Lemma plan_tiles (size : Z) :
  0 < size < 2 ^ 53 ->
  exists rs,
    plan size = ret rs /\
    length rs = Z.to_nat (choose_threads size) /\
    tiles 0 size rs /\
    (forall r, last rs = Some r -> snd r = size - 1) /\
    (forall x, 0 <= x < size <-> exists r, r ∈ rs /\ covers r x) /\
    (forall i j r1 r2 x, rs !! i = Some r1 -> rs !! j = Some r2 ->
       covers r1 x -> covers r2 x -> i = j).
Proof.
  intros [Hpos Hlt].
  pose proof (choose_threads_le_size size Hpos) as Hle.
  pose proof (choose_threads_bounds size) as Hn.
  set (n := choose_threads size) in *.
  pose proof (part_size_exact size n ltac:(lia) Hle Hlt) as Hps.
  assert (Hplan : plan size = ret (ranges_of size n ((size + n - 1) / n))).
  { unfold plan. fold n. rewrite Hps. reflexivity. }
  destruct (planned_part_size size _ Hpos Hps) as [H1 Hlast]. fold n in Hlast.
  assert (Hcov : size <= n * ((size + n - 1) / n)) by div_lia.
  pose proof (ranges_of_tiles size n _ ltac:(lia) H1 Hlast Hcov) as Ht.
  eexists. split; [exact Hplan|].
  split; [apply ranges_of_length|]. split; [exact Ht|].
  split; [intros r; by apply tiles_last with (lo := 0)|].
  split; [intros x; by apply tiles_cover|].
  intros i j r1 r2 x. by apply tiles_disjoint with (lo := 0) (hi := size).
Qed.

(** C2: for a file of [2^53 + 1] bytes the planner yields 16 ranges that
    stop one byte short: the last range ends at [file_size - 2], offset
    [2^53] lies in no range, so the ranges do not tile [0, file_size). *)
Theorem plan_loses_last_byte :
  let size := 2 ^ 53 + 1 in
  exists rs,
    plan size = ret rs /\
    length rs = 16%nat /\
    last rs = Some (15 * 2 ^ 49, size - 2) /\
    Forall (fun r => ~ covers r (size - 1)) rs /\
    ~ tiles 0 size rs.
Proof.
  cbv zeta. eexists. split; [vm_compute; reflexivity|].
  split; [reflexivity|]. split; [reflexivity|]. split.
  - repeat constructor; unfold covers; simpl; lia.
  - intros Ht. eapply tiles_last in Ht; [|reflexivity]. simpl in Ht. lia.
Qed.

(** ** The part worker *)

Lemma requests_app (t1 t2 : list event) :
  requests (t1 ++ t2) = requests t1 ++ requests t2.
Proof.
  induction t1 as [|e t1 IH]; [reflexivity|].
  destruct e; simpl; by rewrite ?IH.
Qed.

Lemma len_app (x y : list Byte.byte) : len (x ++ y) = len x + len y.
Proof. unfold len. rewrite length_app. lia. Qed.

Lemma len_nonneg (x : list Byte.byte) : 0 <= len x.
Proof. unfold len. lia. Qed.

Lemma exists_true (path : string) (w : world) :
  exists_ path w = true <-> is_Some (fs w !! path).
Proof. unfold exists_. by rewrite bool_decide_eq_true. Qed.

Lemma getsize_some (path : string) (w : world) (content : list Byte.byte) :
  fs w !! path = Some content -> getsize path w = len content.
Proof. intros H. unfold getsize. by rewrite H. Qed.

Lemma open_append_lookup (path p : string) (w : world) :
  fs (open_append path w) !! p =
  if decide (p = path) then Some (default [] (fs w !! path)) else fs w !! p.
Proof.
  unfold open_append. destruct (fs w !! path) as [c|] eqn:Hc; simpl.
  - destruct (decide (p = path)) as [->|]; [exact Hc | reflexivity].
  - destruct (decide (p = path)) as [->|].
    + apply lookup_insert_eq.
    + by apply lookup_insert_ne.
Qed.

Lemma open_append_rest (path : string) (w : world) :
  progress_state (open_append path w) = progress_state w /\
  trace (open_append path w) = trace w.
Proof. unfold open_append. by destruct (fs w !! path). Qed.

(** What the chunk loop leaves behind: the bytes are appended to the part
    file in order, the counter advances by as much, no request is made. *)
Lemma write_chunks_spec (path : string) (chunks : list (list Byte.byte))
    (d : Z) (w : world) (content : list Byte.byte) :
  fs w !! path = Some content ->
  let '(d', w') := write_chunks path chunks d w in
  d' = d + len (concat chunks) /\
  fs w' !! path = Some (content ++ concat chunks) /\
  (forall p, p <> path -> fs w' !! p = fs w !! p) /\
  progress_state w' = progress_state w + len (concat chunks) /\
  requests (trace w') = requests (trace w).
Proof.
  revert d w content. induction chunks as [|chunk chunks IH]; intros d w content Hc.
  - simpl. rewrite app_nil_r. unfold len; simpl. repeat split; try lia; done.
  - destruct chunk as [|x chunk].
    + simpl. apply IH. exact Hc.
    + cbn [write_chunks].
      set (c := x :: chunk).
      set (w1 := advance (len c) (write path c w)).
      assert (Hc1 : fs w1 !! path = Some (content ++ c)).
      { unfold w1, advance, emit, write, set_fs. simpl. rewrite Hc. simpl.
        apply lookup_insert_eq. }
      specialize (IH (d + len c) w1 _ Hc1).
      destruct (write_chunks path chunks (d + len c) w1) as [d' w'].
      destruct IH as (Hd & Hfs & Hother & Hp & Hr).
      change (concat (c :: chunks)) with (c ++ concat chunks).
      rewrite len_app, app_assoc.
      split; [lia|]. split; [exact Hfs|]. split.
      * intros p Hp'. rewrite Hother by done.
        unfold w1, advance, emit, write, set_fs. simpl. by apply lookup_insert_ne.
      * split; [rewrite Hp; unfold w1, advance; simpl; lia|].
        rewrite Hr. unfold w1, advance, emit. simpl.
        rewrite requests_app. simpl. by rewrite app_nil_r.
Qed.

(** One turn of the [while] loop, as an equation. *)
Lemma download_range_loop_eq (srv : server) (path : string) (start end_ d : Z)
    (w : world) :
  download_range_loop srv path start end_ d w =
  if d <? end_ - start + 1 then
    match srv with
    | [] => (Retrying, w)
    | answer :: srv =>
        let w := emit (EvGet (start + d) end_) w in
        match answer (start + d) end_ with
        | Refused =>
            download_range_loop srv path start end_ d
              (emit (EvSleep (wait_time d)) w)
        | Stream chunks complete =>
            let '(d', w) := write_chunks path chunks d (open_append path w) in
            if complete then (Returned, w)
            else download_range_loop srv path start end_ d'
                   (emit (EvSleep (wait_time d')) w)
        end
    end
  else (Returned, w).
Proof. destruct srv; reflexivity. Qed.

Lemma download_range_loop_done (srv : server) (path : string)
    (start end_ d : Z) (w : world) :
  end_ - start + 1 <= d ->
  download_range_loop srv path start end_ d w = (Returned, w).
Proof.
  intros H. rewrite download_range_loop_eq.
  destruct (Z.ltb_spec d (end_ - start + 1)); [lia | reflexivity].
Qed.

(** The requests of the loop: each asks for an interval that starts at or
    after [start + d] and ends at [end_]; the first one starts exactly at
    [start + d]; none is made when [d] bytes already fill the range. *)
Lemma download_range_loop_requests (srv : server) (path : string)
    (start end_ d : Z) (w : world) :
  exists rq,
    requests (trace (snd (download_range_loop srv path start end_ d w))) =
      requests (trace w) ++ rq /\
    Forall (fun r => start + d <= fst r /\ snd r = end_) rq /\
    (d < end_ - start + 1 -> srv <> [] -> head rq = Some (start + d, end_)) /\
    (end_ - start + 1 <= d -> rq = []).
Proof.
  revert d w. induction srv as [|answer srv IH]; intros d w;
    rewrite download_range_loop_eq;
    destruct (Z.ltb_spec d (end_ - start + 1)) as [Hlt|Hge].
  1,2,4: exists []; simpl; rewrite app_nil_r;
    (split; [reflexivity|]); (split; [constructor|]);
    (split; [intros; first [lia | congruence] | reflexivity]).
  cbv zeta.
  assert (Hstep : forall d' w1,
    d <= d' ->
    requests (trace w1) = requests (trace w) ++ [(start + d, end_)] ->
    exists rq,
      requests (trace (snd (download_range_loop srv path start end_ d' w1))) =
        requests (trace w) ++ rq /\
      Forall (fun r => start + d <= fst r /\ snd r = end_) rq /\
      (d < end_ - start + 1 -> answer :: srv <> [] ->
         head rq = Some (start + d, end_)) /\
      (end_ - start + 1 <= d -> rq = [])).
  { intros d' w1 Hd Hw1. destruct (IH d' w1) as (rq & Hrq & Hall & _).
    exists ((start + d, end_) :: rq). rewrite Hrq, Hw1, <- app_assoc.
    split; [reflexivity|]. split.
    - constructor; [simpl; lia|].
      eapply Forall_impl; [exact Hall|]. simpl. intros r [? ?]. lia.
    - split; [reflexivity | lia]. }
  destruct (answer (start + d) end_) as [|chunks complete].
  - apply Hstep; [lia|]. unfold emit; simpl.
    rewrite !requests_app. simpl. by rewrite app_nil_r.
  - set (w0 := open_append path (emit (EvGet (start + d) end_) w)).
    assert (Hw0 : requests (trace w0) = requests (trace w) ++ [(start + d, end_)]).
    { unfold w0. rewrite (proj2 (open_append_rest _ _)). unfold emit; simpl.
      by rewrite requests_app. }
    assert (Hc0 : fs w0 !! path = Some (default [] (fs w !! path))).
    { unfold w0. rewrite open_append_lookup. by rewrite decide_True. }
    pose proof (write_chunks_spec path chunks d w0 _ Hc0) as Hwc.
    destruct (write_chunks path chunks d w0) as [d' w1].
    destruct Hwc as (Hd' & _ & _ & _ & Hr).
    pose proof (len_nonneg (concat chunks)).
    destruct complete.
    + exists [(start + d, end_)]. simpl. rewrite Hr, Hw0.
      split; [reflexivity|]. split; [constructor; [simpl; lia | constructor]|].
      split; [reflexivity | lia].
    + apply Hstep; [lia|]. unfold emit; simpl.
      rewrite requests_app. simpl. by rewrite app_nil_r, Hr, Hw0.
Qed.

(** What the loop does to the files and to the counter: bytes are only ever
    appended to the worker's own part file, the counter grows by their
    number, and a worker that had something to download and returned has
    created its part file. *)
Lemma download_range_loop_files (srv : server) (path : string)
    (start end_ d : Z) (w : world) :
  let '(st, w') := download_range_loop srv path start end_ d w in
  exists extra,
    default [] (fs w' !! path) = default [] (fs w !! path) ++ extra /\
    (is_Some (fs w !! path) -> is_Some (fs w' !! path)) /\
    (forall p, p <> path -> fs w' !! p = fs w !! p) /\
    progress_state w' = progress_state w + len extra /\
    (st = Returned -> d < end_ - start + 1 -> is_Some (fs w' !! path)).
Proof.
  revert d w. induction srv as [|answer srv IH]; intros d w;
    rewrite download_range_loop_eq;
    destruct (Z.ltb_spec d (end_ - start + 1)) as [Hlt|Hge].
  1,2,4: exists []; rewrite app_nil_r; unfold len; simpl;
    repeat split; first [done | lia | intros; lia].
  cbv zeta. destruct (answer (start + d) end_) as [|chunks complete].
  - specialize (IH d (emit (EvSleep (wait_time d)) (emit (EvGet (start + d) end_) w))).
    destruct (download_range_loop _ _ _ _ _ _) as [st w'].
    destruct IH as (extra & H1 & H2 & H3 & H4 & H5). exists extra.
    repeat split; try done; intros; by apply H5.
  - set (w0 := open_append path (emit (EvGet (start + d) end_) w)).
    assert (Hc0 : fs w0 !! path = Some (default [] (fs w !! path))).
    { unfold w0. rewrite open_append_lookup. by rewrite decide_True. }
    assert (Ho0 : forall p, p <> path -> fs w0 !! p = fs w !! p).
    { intros p Hp. unfold w0. rewrite open_append_lookup. by rewrite decide_False. }
    assert (Hp0 : progress_state w0 = progress_state w).
    { unfold w0. by rewrite (proj1 (open_append_rest _ _)). }
    pose proof (write_chunks_spec path chunks d w0 _ Hc0) as Hwc.
    destruct (write_chunks path chunks d w0) as [d' w1].
    destruct Hwc as (Hd' & Hfs & Hother & Hp & _).
    destruct complete.
    + exists (concat chunks). rewrite Hfs. simpl.
      repeat split; try done; try lia.
      intros p Hne. rewrite Hother by done. by apply Ho0.
    + specialize (IH d' (emit (EvSleep (wait_time d')) w1)).
      destruct (download_range_loop _ _ _ _ _ _) as [st w'].
      destruct IH as (extra & H1 & H2 & H3 & H4 & H5).
      change (fs (emit (EvSleep (wait_time d')) w1)) with (fs w1) in *.
      change (progress_state (emit (EvSleep (wait_time d')) w1))
        with (progress_state w1) in *.
      rewrite Hfs in H1. simpl in H1.
      exists (concat chunks ++ extra). rewrite H1, len_app, app_assoc.
      split; [reflexivity|]. split; [intros _; apply H2; by rewrite Hfs|].
      split; [intros p Hne; rewrite H3, Hother by done; by apply Ho0|].
      split; [lia|]. intros _ _. apply H2. by rewrite Hfs.
Qed.

(** The counter grows by exactly the bytes the worker appends to its part
    file: every chunk is counted once. *)
Lemma download_range_loop_progress (srv : server) (path : string)
    (start end_ d : Z) (w : world) :
  let w' := snd (download_range_loop srv path start end_ d w) in
  progress_state w' - progress_state w = getsize path w' - getsize path w.
Proof.
  cbv zeta.
  pose proof (download_range_loop_files srv path start end_ d w) as H.
  destruct (download_range_loop _ _ _ _ _ _) as [st w']. simpl.
  destruct H as (extra & Hc & Hkeep & _ & Hp & _).
  rewrite Hp. unfold getsize.
  destruct (fs w !! path) as [c|] eqn:Hw.
  - destruct (Hkeep ltac:(eauto)) as [c' Hw']. rewrite Hw' in *. simpl in Hc.
    subst c'. rewrite length_app. unfold len. lia.
  - simpl in Hc. destruct (fs w' !! path) as [c'|]; simpl in Hc; subst;
      unfold len; simpl; lia.
Qed.

(** With a server that honours the range, a worker that returns leaves
    exactly the bytes of its range in the part file. *)
Lemma download_range_loop_exact (srv : server) (path : string)
    (start end_ d : Z) (w w' : world) :
  Forall honours_range srv ->
  d = getsize path w -> d <= end_ - start + 1 ->
  download_range_loop srv path start end_ d w = (Returned, w') ->
  getsize path w' = end_ - start + 1.
Proof.
  intros Hsrv. revert d w. induction Hsrv as [|answer srv Hans Hsrv IH];
    intros d w Hd Hle; rewrite download_range_loop_eq;
    destruct (Z.ltb_spec d (end_ - start + 1)) as [Hlt|Hge];
    try (intros [= <-]; lia); try discriminate.
  cbv zeta. destruct (Hans (start + d) end_ ltac:(lia)) as [Hmax Hfull].
  destruct (answer (start + d) end_) as [|chunks complete].
  - apply IH; [exact Hd | lia].
  - set (w0 := open_append path (emit (EvGet (start + d) end_) w)).
    assert (Hc0 : fs w0 !! path = Some (default [] (fs w !! path))).
    { unfold w0. rewrite open_append_lookup. by rewrite decide_True. }
    pose proof (write_chunks_spec path chunks d w0 _ Hc0) as Hwc.
    destruct (write_chunks path chunks d w0) as [d' w1].
    destruct Hwc as (Hd' & Hfs & _).
    assert (Hsize : getsize path w1 = d').
    { rewrite (getsize_some _ _ _ Hfs), len_app, Hd', Hd. f_equal.
      unfold getsize. by destruct (fs w !! path). }
    simpl in Hmax. destruct complete.
    + intros [= <-]. rewrite Hsize, Hd', (Hfull chunks eq_refl). lia.
    + apply IH; [symmetry; exact Hsize | lia].
Qed.

(** A worker returns as soon as one answer is a whole body. *)
Lemma download_range_loop_returns (srv : server) (path : string)
    (start end_ d : Z) (w : world) :
  Exists completes srv ->
  fst (download_range_loop srv path start end_ d w) = Returned.
Proof.
  intros Hsrv. revert d w. induction srv as [|answer srv IH]; intros d w.
  - by apply Exists_nil in Hsrv.
  - rewrite download_range_loop_eq.
    destruct (Z.ltb_spec d (end_ - start + 1)); [|reflexivity]. cbv zeta.
    apply Exists_cons in Hsrv as [Hnow|Hlater].
    + destruct (Hnow (start + d) end_) as [chunks ->].
      by destruct (write_chunks _ _ _ _).
    + destruct (answer (start + d) end_) as [|chunks complete].
      * by apply IH.
      * destruct (write_chunks _ _ _ _) as [d' w1].
        destruct complete; [reflexivity | by apply IH].
Qed.

Lemma download_range_unfold (srv : server) (filename : string)
    (start end_ part_num : Z) (w : world) :
  download_range srv filename start end_ part_num w =
  download_range_loop srv (part_file filename part_num) start end_
    (getsize (part_file filename part_num) w) w.
Proof.
  unfold download_range. f_equal.
  destruct (exists_ (part_file filename part_num) w) eqn:He; [reflexivity|].
  unfold getsize. destruct (fs w !! part_file filename part_num) eqn:Hl;
    [|reflexivity].
  assert (exists_ (part_file filename part_num) w = true)
    by (apply exists_true; by rewrite Hl).
  congruence.
Qed.

(** C5: a worker whose part file already holds [k] bytes asks only for the
    interval [start + k, end]: its first request is exactly that interval,
    which is [range.length - k] bytes long, no later request starts before
    [start + k], and no request at all is made once [k] bytes fill the
    range. *)
Theorem resume_requests_remaining (srv : server) (filename : string)
    (start end_ part_num : Z) (w : world) (content : list Byte.byte) :
  fs w !! part_file filename part_num = Some content ->
  let k := len content in
  exists rq,
    requests (trace (snd (download_range srv filename start end_ part_num w))) =
      requests (trace w) ++ rq /\
    Forall (fun r => start + k <= fst r /\ snd r = end_) rq /\
    (k < end_ - start + 1 -> srv <> [] ->
       head rq = Some (start + k, end_) /\
       end_ - (start + k) + 1 = (end_ - start + 1) - k) /\
    (end_ - start + 1 <= k -> rq = []).
Proof.
  intros Hc k. rewrite download_range_unfold, (getsize_some _ _ _ Hc). fold k.
  destruct (download_range_loop_requests srv (part_file filename part_num)
              start end_ k w) as (rq & Hrq & Hall & Hfirst & Hnone).
  exists rq. repeat split; try done; [by apply Hfirst | lia].
Qed.

Lemma resume_requests_remaining_witness :
  let w := World {[ "f.part0" := [Byte.x00; Byte.x01; Byte.x02] ]} 3 [] in
  let srv := [fun _ _ => Refused;
              fun first last => Stream [[Byte.x03; Byte.x04]; [Byte.x05]] true] in
  fs w !! part_file "f" 0 = Some [Byte.x00; Byte.x01; Byte.x02] /\
  exists rq,
    requests (trace (snd (download_range srv "f" 100 105 0 w))) = rq /\
    head rq = Some (103, 105) /\
    Forall (fun r => 103 <= fst r /\ snd r = 105) rq.
Proof.
  cbv zeta.
  assert (Hc : fs (World {[ "f.part0" := [Byte.x00; Byte.x01; Byte.x02] ]} 3 [])
                 !! part_file "f" 0 = Some [Byte.x00; Byte.x01; Byte.x02])
    by (vm_compute; reflexivity).
  split; [exact Hc|].
  destruct (resume_requests_remaining
    [fun _ _ => Refused;
     fun first last => Stream [[Byte.x03; Byte.x04]; [Byte.x05]] true]
    "f" 100 105 0 _ _ Hc) as (rq & Hrq & Hall & Hfirst & _).
  exists rq. split; [exact Hrq|]. split; [|exact Hall].
  apply Hfirst; [vm_compute; reflexivity | discriminate].
Defined.






(** ** The progress counter *)

Lemma advance_all_total (deltas : list Z) (w : world) :
  progress_state (advance_all deltas w) = progress_state w + py_sum deltas.
Proof.
  revert w. induction deltas as [|d deltas IH]; intros w; simpl; [lia|].
  unfold advance_all in *. simpl. rewrite IH. simpl. lia.
Qed.

Lemma py_sum_perm (l l' : list Z) : l ≡ₚ l' -> py_sum l = py_sum l'.
Proof.
  induction 1 as [|x l l' _ IH|x y l|l l' l'' _ IH1 _ IH2]; simpl; lia.
Qed.

(** C9: from any initial total, a sequence of [advance] calls ends at the
    initial total plus the sum of the deltas, in whatever order the calls are
    serialised; an advance by a positive delta strictly raises the total. *)
Theorem progress_total (initial : Z) (files : gmap string (list Byte.byte))
    (t : list event) (deltas deltas' : list Z) :
  deltas ≡ₚ deltas' ->
  let w := World files initial t in
  progress_state (advance_all deltas w) = initial + py_sum deltas /\
  progress_state (advance_all deltas' w) = initial + py_sum deltas /\
  (forall delta w, 0 < delta ->
     progress_state w < progress_state (advance delta w) /\
     progress_state (advance delta w) = progress_state w + delta).
Proof.
  intros Hperm w. rewrite !advance_all_total. simpl.
  rewrite (py_sum_perm _ _ Hperm).
  repeat split; try reflexivity; unfold advance; simpl; lia.
Qed.

Lemma progress_total_witness :
  progress_state (advance_all [8192; 100; 4096] (World ∅ 5000 [])) = 17388 /\
  progress_state (advance_all [4096; 8192; 100] (World ∅ 5000 [])) = 17388.
Proof.
  assert (Hperm : [8192; 100; 4096] ≡ₚ [4096; 8192; 100]).
  { change [8192; 100; 4096] with ([8192; 100] ++ [4096]).
    change [4096; 8192; 100] with ([4096] ++ [8192; 100]).
    apply Permutation_app_comm. }
  destruct (progress_total 5000 ∅ [] _ _ Hperm) as (H1 & H2 & _).
  split; [exact H1 | exact H2].
Defined.

(** ** Part-file names *)

Lemma append_cons_ne (s : string) (c : ascii) (t : string) :
  s <> s +:+ String c t.
Proof.
  induction s as [|a s IH]; intros H; [discriminate|].
  change (String a s +:+ String c t) with (String a (s +:+ String c t)) in H.
  injection H as H. by apply IH.
Qed.

Lemma part_file_ne_filename (filename : string) (i : Z) :
  part_file filename i <> filename.
Proof.
  unfold part_file. intros H. symmetry in H. revert H.
  change (".part" +:+ pretty i) with (String "." ("part" +:+ pretty i)).
  apply append_cons_ne.
Qed.

Lemma part_file_inj (filename : string) (i j : Z) :
  part_file filename i = part_file filename j -> i = j.
Proof.
  unfold part_file. intros H.
  apply (inj (String.app filename)) in H.
  apply (inj (String.app ".part")) in H.
  by apply (inj pretty) in H.
Qed.

(** ** The merge step *)

Lemma merge_parts_spec (filename : string) (present rest : list Z) (w : world)
    (acc : list Byte.byte) :
  NoDup present ->
  fs w !! filename = Some acc ->
  (forall i, i ∈ present -> is_Some (fs w !! part_file filename i)) ->
  (forall i, head rest = Some i -> fs w !! part_file filename i = None) ->
  exists w',
    merge_parts filename (present ++ rest) w =
      (match rest with [] => ret tt | _ => raise FileNotFoundError end, w') /\
    fs w' !! filename =
      Some (acc ++ concat (map (fun i => default [] (fs w !! part_file filename i))
                               present)) /\
    (forall i, i ∈ present -> fs w' !! part_file filename i = None) /\
    (forall p, p <> filename ->
       (forall i, i ∈ present -> p <> part_file filename i) ->
       fs w' !! p = fs w !! p) /\
    progress_state w' = progress_state w /\ trace w' = trace w.
Proof.
  intros Hnd. revert w acc.
  induction Hnd as [|i present Hi Hnd IH]; intros w acc Hacc Hpresent Hrest.
  - exists w. simpl. rewrite app_nil_r. split.
    + destruct rest as [|r rest]; [reflexivity|]. simpl.
      by rewrite (Hrest r eq_refl).
    + repeat split; try done. intros i Hi. by apply elem_of_nil in Hi.
  - destruct (Hpresent i ltac:(left)) as [c Hc].
    change ((i :: present) ++ rest) with (i :: (present ++ rest)).
    cbn [merge_parts]. cbv zeta. rewrite Hc.
    set (w1 := remove (part_file filename i) (write filename c w)).
    assert (Hfs1 : forall p, fs w1 !! p =
              if decide (p = part_file filename i) then None
              else if decide (p = filename) then Some (acc ++ c)
              else fs w !! p).
    { intros p. unfold w1, remove, write, set_fs. simpl. rewrite Hacc. simpl.
      destruct (decide (p = part_file filename i)) as [->|Hne].
      - apply lookup_delete_eq.
      - rewrite lookup_delete_ne by done.
        destruct (decide (p = filename)) as [->|Hne'].
        + apply lookup_insert_eq.
        + by apply lookup_insert_ne. }
    assert (Hpart1 : forall j, j <> i ->
              fs w1 !! part_file filename j = fs w !! part_file filename j).
    { intros j Hj. rewrite Hfs1.
      rewrite decide_False by (intros Heq; by apply part_file_inj in Heq).
      rewrite decide_False by apply part_file_ne_filename. reflexivity. }
    destruct (IH w1 (acc ++ c)) as (w' & Hrun & Hdest & Hgone & Hframe & Hp & Ht).
    { rewrite Hfs1. rewrite decide_False
        by (intros Heq; symmetry in Heq; by apply part_file_ne_filename in Heq).
      by rewrite decide_True. }
    { intros j Hj. rewrite Hpart1 by (intros ->; done).
      apply Hpresent. by right. }
    { intros r Hr. rewrite Hfs1. destruct (decide _) as [|Hne]; [reflexivity|].
      rewrite decide_False by apply part_file_ne_filename. by apply Hrest. }
    exists w'. split; [exact Hrun|]. split.
    { rewrite Hdest, <- app_assoc. do 2 f_equal. simpl. rewrite Hc. simpl.
      f_equal. f_equal. apply map_ext_in. intros j Hj.
      rewrite Hpart1; [reflexivity|].
      intros ->. apply Hi. by apply list_elem_of_In. }
    split.
    { intros j Hj. apply elem_of_cons in Hj as [->|Hj]; [|by apply Hgone].
      rewrite Hframe.
      - rewrite Hfs1. by rewrite decide_True.
      - apply part_file_ne_filename.
      - intros j Hj Heq. apply part_file_inj in Heq. by subst. }
    split; [|by rewrite Hp, Ht].
    intros p Hp1 Hp2. rewrite Hframe.
    + rewrite Hfs1. rewrite decide_False by (apply Hp2; by left).
      by rewrite decide_False.
    + exact Hp1.
    + intros j Hj. apply Hp2. by right.
Qed.

Lemma elem_of_range (i n : Z) : i ∈ range n <-> 0 <= i < n.
Proof. unfold range. rewrite elem_of_seqZ. lia. Qed.

(** C1, as stated, fails: with part 1 of two missing, the merge raises after
    it has truncated the destination, copied part 0 into it and deleted
    part 0; the destination is neither untouched nor fully written and the
    part files are not intact. *)
Lemma merge_is_not_atomic :
  let old := [Byte.x01; Byte.x02; Byte.x03] in
  let w := World {[ "f" := old; "f.part0" := [Byte.x0a] ]} 0 [] in
  let w' := snd (merge_step "f" 2 w) in
  fs w !! part_file "f" 1 = None /\
  fst (merge_step "f" 2 w) = raise FileNotFoundError /\
  fs w' !! "f" = Some [Byte.x0a] /\
  fs w' !! "f" <> fs w !! "f" /\
  fs w !! part_file "f" 0 = Some [Byte.x0a] /\
  fs w' !! part_file "f" 0 = None.
Proof. vm_compute. repeat split; discriminate. Qed.

(** The merge step in terms of [k], the first index whose part file is
    missing ([k = n] when none is). *)
Lemma merge_step_prefix (filename : string) (n k : Z) (w : world) :
  0 <= k <= n ->
  (forall i, 0 <= i < k -> is_Some (fs w !! part_file filename i)) ->
  (k < n -> fs w !! part_file filename k = None) ->
  exists w',
    merge_step filename n w =
      (if k <? n then raise FileNotFoundError else ret tt, w') /\
    fs w' !! filename = Some (concat_parts filename k w) /\
    (forall i, 0 <= i < k -> fs w' !! part_file filename i = None) /\
    (forall p, p <> filename ->
       (forall i, 0 <= i < k -> p <> part_file filename i) ->
       fs w' !! p = fs w !! p).
Proof.
  intros Hk Hpresent Hmissing. unfold merge_step, range.
  assert (Hsplit : seqZ 0 n = seqZ 0 k ++ seqZ k (n - k)).
  { replace n with (k + (n - k)) at 1 by lia. by rewrite seqZ_app by lia. }
  rewrite Hsplit.
  set (w0 := open_truncate filename w).
  assert (Hfs0 : forall i, fs w0 !! part_file filename i = fs w !! part_file filename i).
  { intros i. unfold w0, open_truncate, set_fs. simpl.
    apply lookup_insert_ne. intros Heq. symmetry in Heq.
    by apply part_file_ne_filename in Heq. }
  destruct (merge_parts_spec filename (seqZ 0 k) (seqZ k (n - k)) w0 [])
    as (w' & Hrun & Hdest & Hgone & Hframe & _).
  - apply NoDup_seqZ.
  - unfold w0, open_truncate, set_fs. simpl. apply lookup_insert_eq.
  - intros i Hi. rewrite Hfs0. apply Hpresent. apply elem_of_seqZ in Hi. lia.
  - intros i Hi. rewrite Hfs0.
    destruct (Z_lt_le_dec k n) as [Hlt|Hge].
    + rewrite seqZ_cons in Hi by lia. injection Hi as <-. by apply Hmissing.
    + rewrite seqZ_nil in Hi by lia. discriminate.
  - exists w'. split.
    { rewrite Hrun. destruct (Z.ltb_spec k n).
      - rewrite seqZ_cons by lia. reflexivity.
      - rewrite seqZ_nil by lia. reflexivity. }
    split.
    { rewrite Hdest. simpl. unfold concat_parts, range. do 2 f_equal.
      apply map_ext. intros i. by rewrite Hfs0. }
    split.
    { intros i Hi. apply Hgone. apply elem_of_seqZ. lia. }
    intros p Hp1 Hp2. rewrite Hframe; [|exact Hp1|].
    + unfold w0, open_truncate, set_fs. simpl. by apply lookup_insert_ne.
    + intros i Hi. apply Hp2. apply elem_of_seqZ in Hi. lia.
Qed.

(** C1, amended: the merge truncates the destination, then copies the part
    files into it in index order and deletes each one right after its copy.
    When all [n] part files exist it returns with the destination holding
    their concatenation, whatever their lengths, and with the part files
    gone.  When part [k] is the first one missing it raises with the
    destination holding parts [0 .. k - 1], those part files gone, and the
    later part files, like every other file, as they were. *)
Theorem merge_step_spec (filename : string) (n : Z) (w : world) :
  0 <= n ->
  ((forall i, 0 <= i < n -> is_Some (fs w !! part_file filename i)) ->
   exists w',
     merge_step filename n w = (ret tt, w') /\
     fs w' !! filename = Some (concat_parts filename n w) /\
     (forall i, 0 <= i < n -> fs w' !! part_file filename i = None)) /\
  (forall k, 0 <= k < n ->
     (forall i, 0 <= i < k -> is_Some (fs w !! part_file filename i)) ->
     fs w !! part_file filename k = None ->
     exists w',
       merge_step filename n w = (raise FileNotFoundError, w') /\
       fs w' !! filename = Some (concat_parts filename k w) /\
       (forall i, 0 <= i < k -> fs w' !! part_file filename i = None) /\
       (forall i, k <= i ->
          fs w' !! part_file filename i = fs w !! part_file filename i)).
Proof.
  intros Hn. split.
  - intros Hall.
    destruct (merge_step_prefix filename n n w ltac:(lia) Hall ltac:(lia))
      as (w' & Hrun & Hdest & Hgone & _).
    exists w'. rewrite Z.ltb_irrefl in Hrun. by repeat split.
  - intros k Hk Hpresent Hmissing.
    destruct (merge_step_prefix filename n k w ltac:(lia) Hpresent
                ltac:(intros _; exact Hmissing))
      as (w' & Hrun & Hdest & Hgone & Hframe).
    exists w'. destruct (Z.ltb_spec k n); [|lia].
    split; [exact Hrun|]. split; [exact Hdest|]. split; [exact Hgone|].
    intros i Hi. apply Hframe; [apply part_file_ne_filename|].
    intros j Hj Heq. apply part_file_inj in Heq. lia.
Qed.

Lemma merge_step_spec_witness :
  let w := World {[ "f" := [Byte.x01]; "f.part0" := [Byte.x0a];
                    "f.part1" := [Byte.x0b; Byte.x0c] ]} 0 [] in
  0 <= 2 /\
  exists w',
    merge_step "f" 2 w = (ret tt, w') /\
    fs w' !! "f" = Some [Byte.x0a; Byte.x0b; Byte.x0c] /\
    fs w' !! "f.part0" = None /\ fs w' !! "f.part1" = None.
Proof.
  cbv zeta.
  set (w := World {[ "f" := [Byte.x01]; "f.part0" := [Byte.x0a];
                     "f.part1" := [Byte.x0b; Byte.x0c] ]} 0 []).
  assert (Hn : 0 <= 2) by lia. split; [exact Hn|].
  assert (H0 : fs w !! part_file "f" 0 = Some [Byte.x0a]) by (vm_compute; reflexivity).
  assert (H1 : fs w !! part_file "f" 1 = Some [Byte.x0b; Byte.x0c])
    by (vm_compute; reflexivity).
  destruct (proj1 (merge_step_spec "f" 2 w Hn)) as (w' & Hrun & Hdest & Hgone).
  - intros i Hi. assert (i = 0 \/ i = 1) as [-> | ->] by lia; eauto.
  - exists w'. split; [exact Hrun|]. split.
    + rewrite Hdest. vm_compute. reflexivity.
    + split; [apply (Hgone 0) | apply (Hgone 1)]; lia.
Defined.

(** ** The part workers of a task *)

Lemma download_range_files (srv : server) (filename : string)
    (start end_ part_num : Z) (w : world) :
  let '(st, w') := download_range srv filename start end_ part_num w in
  (forall p, is_Some (fs w !! p) -> is_Some (fs w' !! p)) /\
  (st = Returned -> start <= end_ ->
     is_Some (fs w' !! part_file filename part_num)).
Proof.
  rewrite download_range_unfold.
  pose proof (download_range_loop_files srv (part_file filename part_num)
                start end_ (getsize (part_file filename part_num) w) w) as H.
  destruct (download_range_loop _ _ _ _ _ _) as [st w'].
  destruct H as (extra & _ & Hkeep & Hother & _ & Hnew).
  assert (Hall : forall p, is_Some (fs w !! p) -> is_Some (fs w' !! p)).
  { intros p Hp. destruct (decide (p = part_file filename part_num)) as [->|Hne].
    - by apply Hkeep.
    - by rewrite Hother. }
  split; [exact Hall|]. intros Hst Hne.
  destruct (Z_lt_le_dec (getsize (part_file filename part_num) w)
                        (end_ - start + 1)) as [Hlt|Hge]; [by apply Hnew|].
  apply Hall. unfold getsize in Hge.
  destruct (fs w !! part_file filename part_num); [done | lia].
Qed.

Lemma run_parts_files (servers : Z -> server) (filename : string)
    (parts : list (Z * (Z * Z))) (w : world) :
  let '(st, w') := run_parts servers filename parts w in
  (forall p, is_Some (fs w !! p) -> is_Some (fs w' !! p)) /\
  (st = Returned ->
   forall i r, (i, r) ∈ parts -> fst r <= snd r ->
     is_Some (fs w' !! part_file filename i)).
Proof.
  revert w. induction parts as [|[i [start end_]] parts IH]; intros w.
  - simpl. split; [done|]. intros _ i r Hin. by apply elem_of_nil in Hin.
  - cbn [run_parts].
    pose proof (download_range_files (servers i) filename start end_ i w) as H1.
    destruct (download_range _ _ _ _ _ _) as [s w1].
    specialize (IH w1). destruct (run_parts _ _ _ _) as [s' w'].
    destruct H1 as [Hkeep1 Hnew1]. destruct IH as [Hkeep Hnew].
    split; [intros p Hp; by apply Hkeep, Hkeep1|].
    intros Hst j r Hin Hr. destruct s; [|discriminate].
    apply elem_of_cons in Hin as [[= -> ->]|Hin].
    + apply Hkeep. by apply Hnew1.
    + by apply (Hnew Hst j r).
Qed.

Lemma enumerate_from_lookup {A} (i0 : Z) (l : list A) (k : nat) (x : A) :
  l !! k = Some x -> (i0 + Z.of_nat k, x) ∈ enumerate_from i0 l.
Proof.
  revert i0 k. induction l as [|y l IH]; intros i0 k Hk; [discriminate|].
  destruct k as [|k]; cbn [enumerate_from].
  - injection Hk as ->. rewrite Z.add_0_r. apply list_elem_of_here.
  - apply list_elem_of_further.
    replace (i0 + Z.of_nat (S k)) with (i0 + 1 + Z.of_nat k) by lia.
    apply IH. exact Hk.
Qed.

(** For every positive file size, with [n = choose_threads(file_size)] and
    the part size the code computes, [n * (n - 1) < file_size], exactly [n]
    ranges are planned and each holds at least one byte; hence, once the [n]
    workers have returned, every one of the [n] part files exists and the
    merge step finds them all. *)
Lemma planned_ranges_nonempty (file_size part_size : Z) :
  0 < file_size ->
  part_size_of file_size (choose_threads file_size) = ret part_size ->
  let n := choose_threads file_size in
  let ranges := ranges_of file_size n part_size in
  n * (n - 1) < file_size /\
  length ranges = Z.to_nat n /\
  Forall (fun r => fst r <= snd r) ranges /\
  (forall servers filename w w',
     run_parts servers filename (enumerate ranges) w = (Returned, w') ->
     (forall i, 0 <= i < n -> is_Some (fs w' !! part_file filename i)) /\
     fst (merge_step filename n (emit (EvUpdate file_size) w')) = ret tt).
Proof.
  intros Hpos Hps n ranges.
  destruct (planned_part_size file_size part_size Hpos Hps) as [H1 Hlast].
  pose proof (ranges_of_nonempty file_size n part_size H1 Hlast) as Hne.
  pose proof (ranges_of_length file_size n part_size) as Hlen.
  fold ranges in Hne, Hlen.
  split; [by apply choose_threads_square|]. split; [exact Hlen|].
  split; [exact Hne|].
  intros servers filename w w' Hrun.
  assert (Hparts : forall i, 0 <= i < n ->
            is_Some (fs w' !! part_file filename i)).
  { intros i Hi.
    pose proof (run_parts_files servers filename (enumerate ranges) w) as H.
    rewrite Hrun in H. destruct H as [_ Hnew].
    destruct (lookup_lt_is_Some_2 ranges (Z.to_nat i)) as [r Hr]; [lia|].
    apply (Hnew eq_refl i r).
    - replace i with (0 + Z.of_nat (Z.to_nat i)) at 1 by lia.
      by apply enumerate_from_lookup.
    - by apply (Forall_lookup_1 _ _ _ _ Hne Hr). }
  split; [exact Hparts|].
  pose proof (choose_threads_bounds file_size) as Hn. fold n in Hn.
  destruct (merge_step_prefix filename n n (emit (EvUpdate file_size) w')
              ltac:(lia) Hparts ltac:(lia)) as (w'' & Hrun' & _).
  rewrite Hrun'. destruct (Z.ltb_spec n n); [lia | reflexivity].
Qed.

Lemma planned_ranges_nonempty_witness :
  0 < 100 * MiB /\
  part_size_of (100 * MiB) (choose_threads (100 * MiB)) = ret (50 * MiB) /\
  length (ranges_of (100 * MiB) (choose_threads (100 * MiB)) (50 * MiB)) = 2%nat /\
  Forall (fun r => fst r <= snd r)
    (ranges_of (100 * MiB) (choose_threads (100 * MiB)) (50 * MiB)).
Proof.
  assert (Hpos : 0 < 100 * MiB) by (vm_compute; reflexivity).
  assert (Hps : part_size_of (100 * MiB) (choose_threads (100 * MiB)) =
                ret (50 * MiB)) by (vm_compute; reflexivity).
  destruct (planned_ranges_nonempty (100 * MiB) (50 * MiB) Hpos Hps)
    as (_ & Hlen & Hne & _).
  split; [exact Hpos|]. split; [exact Hps|]. split; [exact Hlen | exact Hne].
Defined.

(** ** The coordinator *)

(** When the checks of lines 80-92 pass and yield [file_size], and the
    destination already holds exactly [file_size] bytes, the task ends as
    skipped right after the [HEAD] request: no range request is made, no
    range is planned, no file and no counter is touched. *)
Lemma skip_when_already_complete (response : head_response)
    (servers : Z -> server) (filename : string) (w : world) (file_size : Z)
    (content : list Byte.byte) :
  probe response = ret file_size ->
  fs w !! filename = Some content ->
  len content = file_size ->
  download_file_rich response servers filename w =
    (SkippedAlreadyComplete, emit EvHead w) /\
  requests (trace (emit EvHead w)) = requests (trace w) /\
  fs (emit EvHead w) = fs w /\
  progress_state (emit EvHead w) = progress_state w.
Proof.
  intros Hprobe Hc Hlen. split.
  - unfold download_file_rich. rewrite Hprobe. unfold ret.
    assert (He : exists_ filename (emit EvHead w) = true)
      by (apply exists_true; simpl; by rewrite Hc).
    rewrite He, (getsize_some filename (emit EvHead w) content Hc), Hlen.
    by rewrite Z.eqb_refl.
  - unfold emit. simpl. rewrite requests_app. simpl. by rewrite app_nil_r.
Qed.

Lemma skip_when_already_complete_witness :
  let response :=
    HeadResponse 200 {[ "content-length" := "3";
                        "content-type" := "application/zip" ]} in
  let w := World {[ "a.zip" := [Byte.x50; Byte.x4b; Byte.x03];
                    "a.zip.part0" := [Byte.x50] ]} 0 [] in
  probe response = ret 3 /\
  download_file_rich response (fun _ => []) "a.zip" w =
    (SkippedAlreadyComplete, emit EvHead w).
Proof.
  cbv zeta.
  assert (Hprobe : probe (HeadResponse 200 {[ "content-length" := "3";
                     "content-type" := "application/zip" ]}) = ret 3)
    by (vm_compute; reflexivity).
  split; [exact Hprobe|].
  refine (proj1 (skip_when_already_complete _ (fun _ => []) "a.zip"
                   (World {[ "a.zip" := [Byte.x50; Byte.x4b; Byte.x03];
                             "a.zip.part0" := [Byte.x50] ]} 0 [])
                   3 [Byte.x50; Byte.x4b; Byte.x03] Hprobe _ _));
    vm_compute; reflexivity.
Defined.

(** C7: a 404 answer without a [Location] header that reports the very
    size the destination already has is not skipped: the print of the
    redirect location (line 83) raises [KeyError] before the skip test is
    reached, and the task fails.  The same headers on a 200 answer are
    skipped. *)
Theorem skip_lost_without_location :
  let hs : gmap string string :=
    {[ "content-length" := "3"; "content-type" := "application/zip" ]} in
  let w := World {[ "a.zip" := [Byte.x50; Byte.x4b; Byte.x03] ]} 0 [] in
  header "Content-Length" (HeadResponse 404 hs) = Some "3" /\
  exists_ "a.zip" w = true /\ getsize "a.zip" w = 3 /\
  download_file_rich (HeadResponse 404 hs) (fun _ => []) "a.zip" w =
    (Failed KeyError, emit EvHead w) /\
  download_file_rich (HeadResponse 200 hs) (fun _ => []) "a.zip" w =
    (SkippedAlreadyComplete, emit EvHead w).
Proof. cbv zeta. repeat split; vm_compute; reflexivity. Qed.



(** [int] accepts white space around the digits, not the separators 0x1c
    to 0x1f. *)
Example py_int_white_space :
  py_int (String.append " 12" (String (ascii_of_nat 10) EmptyString)) = ret 12 /\
  py_int (String.append "12" (String (ascii_of_nat 31) EmptyString))
    = raise ValueError.
Proof. split; vm_compute; reflexivity. Qed.


(** The print of the redirect location on a non-2xx answer raises
    [KeyError] when the answer has no [Location] header. *)
Lemma probe_key_error_without_location :
  probe (HeadResponse 404 {[ "content-length" := "10";
                             "content-type" := "application/octet-stream" ]})
  = raise KeyError.
Proof. vm_compute. reflexivity. Qed.



(** * Further properties of the engine *)

(** ** Backoff *)

(** The wait before a retry is at least one second, at most sixty, and
    never shrinks as more bytes are banked in the part file. *)
Theorem wait_time_bounded_monotone (d1 d2 : Z) :
  0 <= d1 <= d2 ->
  1 <= wait_time d1 <= 60 /\ wait_time d1 <= wait_time d2.
Proof.
  intros [H0 Hle]. unfold wait_time.
  assert (Hq1 : 0 <= d1 / 1000000) by div_lia.
  assert (Hq : d1 / 1000000 <= d2 / 1000000) by (apply Z.div_le_mono; lia).
  set (e1 := Z.min (d1 / 1000000) 6). set (e2 := Z.min (d2 / 1000000) 6).
  assert (He : 0 <= e1 <= e2) by (unfold e1, e2; lia).
  assert (Hp1 : 2 ^ 0 <= 2 ^ e1) by (apply Z.pow_le_mono_r; lia).
  assert (Hp : 2 ^ e1 <= 2 ^ e2) by (apply Z.pow_le_mono_r; lia).
  change (2 ^ 0) with 1 in Hp1. lia.
Qed.

Lemma wait_time_bounded_monotone_witness :
  0 <= 2500000 <= 7000000 /\
  wait_time 2500000 = 4 /\ wait_time 2500000 <= wait_time 7000000.
Proof.
  assert (H : 0 <= 2500000 <= 7000000) by lia.
  split; [exact H|]. split; [reflexivity|].
  exact (proj2 (wait_time_bounded_monotone 2500000 7000000 H)).
Defined.

(** ** Range planning *)

(** Below [2^53] bytes the parts are as even as they can be: every range but
    the last holds exactly [ceil(file_size / n)] bytes and the last one
    holds between one byte and that many. *)
Theorem planned_range_lengths (size : Z) :
  0 < size < 2 ^ 53 ->
  let n := choose_threads size in
  let part_size := (size + n - 1) / n in
  plan size = ret (ranges_of size n part_size) /\
  forall (i : nat) r, ranges_of size n part_size !! i = Some r ->
    1 <= snd r - fst r + 1 <= part_size /\
    (Z.of_nat i < n - 1 -> snd r - fst r + 1 = part_size).
Proof.
  intros [Hpos Hlt] n part_size.
  pose proof (choose_threads_le_size size Hpos) as Hle.
  pose proof (choose_threads_bounds size) as Hn. fold n in Hle, Hn.
  pose proof (part_size_exact size n ltac:(lia) Hle Hlt) as Hps.
  fold part_size in Hps.
  destruct (planned_part_size size part_size Hpos Hps) as [H1 Hlast].
  fold n in Hlast.
  split; [unfold plan; fold n; by rewrite Hps|].
  intros i r Hr. apply ranges_of_lookup in Hr as [Hi ->]. simpl.
  assert (Hin : Z.of_nat i * part_size <= (n - 1) * part_size) by nia.
  split; [lia|]. intros Hi'.
  assert ((Z.of_nat i + 1) * part_size <= (n - 1) * part_size) by nia. lia.
Qed.

Lemma planned_range_lengths_witness :
  0 < 120 * MiB + 1 < 2 ^ 53 /\
  plan (120 * MiB + 1) =
    ret [(0, 62914560); (62914561, 125829120)].
Proof.
  assert (H : 0 < 120 * MiB + 1 < 2 ^ 53) by (vm_compute; split; reflexivity).
  split; [exact H|].
  rewrite (proj1 (planned_range_lengths (120 * MiB + 1) H)).
  vm_compute. reflexivity.
Defined.

(** At every size for which a part size is computed, rounding included, the
    planned ranges lie inside the file and come in ascending order without
    sharing a byte: no offset is ever requested twice or past the end. *)
Theorem planned_ranges_disjoint_in_file (size part_size : Z) :
  0 < size ->
  part_size_of size (choose_threads size) = ret part_size ->
  forall (i j : nat) r1 r2,
    ranges_of size (choose_threads size) part_size !! i = Some r1 ->
    ranges_of size (choose_threads size) part_size !! j = Some r2 ->
    (0 <= fst r1 /\ snd r1 <= size - 1) /\
    ((i < j)%nat -> snd r1 < fst r2).
Proof.
  intros Hpos Hps i j r1 r2 H1 H2.
  destruct (planned_part_size size part_size Hpos Hps) as [Hp _].
  apply ranges_of_lookup in H1 as [Hi ->].
  apply ranges_of_lookup in H2 as [Hj ->]. simpl.
  split; [split; [nia | lia]|]. intros Hij.
  assert ((Z.of_nat i + 1) * part_size <= Z.of_nat j * part_size) by nia. lia.
Qed.

Lemma planned_ranges_disjoint_in_file_witness :
  0 < 2 ^ 53 + 1 /\
  part_size_of (2 ^ 53 + 1) (choose_threads (2 ^ 53 + 1)) = ret (2 ^ 49) /\
  forall (i j : nat) r1 r2,
    ranges_of (2 ^ 53 + 1) 16 (2 ^ 49) !! i = Some r1 ->
    ranges_of (2 ^ 53 + 1) 16 (2 ^ 49) !! j = Some r2 ->
    (i < j)%nat -> snd r1 < fst r2.
Proof.
  assert (Hpos : 0 < 2 ^ 53 + 1) by (vm_compute; reflexivity).
  assert (Hps : part_size_of (2 ^ 53 + 1) (choose_threads (2 ^ 53 + 1)) =
                ret (2 ^ 49)) by (vm_compute; reflexivity).
  split; [exact Hpos|]. split; [exact Hps|].
  intros i j r1 r2 H1 H2.
  exact (proj2 (planned_ranges_disjoint_in_file _ _ Hpos Hps i j r1 r2 H1 H2)).
Defined.

(** ** Part-file names *)

(** Two parts of a task have the same part file only if they are the same
    part, and no part file is the destination itself. *)
Theorem part_files_distinct (filename : string) (i j : Z) :
  (part_file filename i = part_file filename j <-> i = j) /\
  part_file filename i <> filename.
Proof.
  split; [split|].
  - apply part_file_inj.
  - by intros ->.
  - apply part_file_ne_filename.
Qed.

(** ** The part worker *)

(** Whatever the server answers, a worker only ever appends to its own part
    file: what the file held stays as a prefix of what it holds afterwards,
    a part file that existed still exists, and every other file is left as
    it was. *)
Theorem download_range_appends_only (srv : server) (filename : string)
    (start end_ part_num : Z) (w : world) :
  let path := part_file filename part_num in
  let w' := snd (download_range srv filename start end_ part_num w) in
  default [] (fs w !! path) `prefix_of` default [] (fs w' !! path) /\
  (is_Some (fs w !! path) -> is_Some (fs w' !! path)) /\
  (forall p, p <> path -> fs w' !! p = fs w !! p).
Proof.
  cbv zeta. rewrite download_range_unfold.
  pose proof (download_range_loop_files srv (part_file filename part_num)
                start end_ (getsize (part_file filename part_num) w) w) as H.
  destruct (download_range_loop _ _ _ _ _ _) as [st w']. simpl.
  destruct H as (extra & Hc & Hkeep & Hother & _).
  split; [by exists extra|]. by split.
Qed.

Lemma refused_loop (srv : server) (path : string) (start end_ d : Z) (w : world) :
  Forall (fun answer => forall first last, answer first last = Refused) srv ->
  d < end_ - start + 1 ->
  download_range_loop srv path start end_ d w =
    (Retrying,
     World (fs w) (progress_state w)
       (trace w ++ concat (replicate (length srv)
                             [EvGet (start + d) end_; EvSleep (wait_time d)]))).
Proof.
  intros Hsrv Hlt. revert w. induction Hsrv as [|answer srv Hans _ IH]; intros w;
    rewrite download_range_loop_eq;
    destruct (Z.ltb_spec d (end_ - start + 1)); try lia.
  - simpl. rewrite app_nil_r. by destruct w.
  - cbv zeta. rewrite Hans, IH. simpl. f_equal. f_equal.
    by rewrite <- !app_assoc.
Qed.

(** While the server refuses every request the worker never gives up and
    never backs off further: it repeats the very same range request, sleeps
    the same [wait_time(downloaded)] after each refusal, and leaves the files
    and the counter untouched. *)
Theorem refused_requests_repeat (srv : server) (filename : string)
    (start end_ part_num : Z) (w : world) :
  Forall (fun answer => forall first last, answer first last = Refused) srv ->
  getsize (part_file filename part_num) w < end_ - start + 1 ->
  let k := getsize (part_file filename part_num) w in
  download_range srv filename start end_ part_num w =
    (Retrying,
     World (fs w) (progress_state w)
       (trace w ++ concat (replicate (length srv)
                             [EvGet (start + k) end_; EvSleep (wait_time k)]))).
Proof.
  intros Hsrv Hlt k. rewrite download_range_unfold. by apply refused_loop.
Qed.

Lemma refused_requests_repeat_witness :
  let srv := [fun (_ _ : Z) => Refused; fun (_ _ : Z) => Refused] in
  let w := World {[ "f.part0" := [Byte.x00; Byte.x01] ]} 2 [] in
  download_range srv "f" 10 19 0 w =
    (Retrying,
     World (fs w) 2 [EvGet 12 19; EvSleep 1; EvGet 12 19; EvSleep 1]).
Proof.
  cbv zeta.
  assert (Hsrv : Forall (fun answer : Z -> Z -> response =>
                           forall first last, answer first last = Refused)
                   [fun (_ _ : Z) => Refused; fun (_ _ : Z) => Refused])
    by (repeat constructor).
  assert (Hlt : getsize (part_file "f" 0)
                  (World {[ "f.part0" := [Byte.x00; Byte.x01] ]} 2 []) < 19 - 10 + 1)
    by (vm_compute; reflexivity).
  rewrite (refused_requests_repeat _ "f" 10 19 0
             (World {[ "f.part0" := [Byte.x00; Byte.x01] ]} 2 []) Hsrv Hlt).
  vm_compute. reflexivity.
Defined.

(** ** The files and the counter of a task *)

Lemma enumerate_from_map {A} (f : Z -> A) (i0 : Z) (k : nat) :
  enumerate_from i0 (map f (seqZ i0 (Z.of_nat k))) =
  map (fun i => (i, f i)) (seqZ i0 (Z.of_nat k)).
Proof.
  revert i0. induction k as [|k IH]; intros i0; [reflexivity|].
  rewrite seqZ_cons by lia.
  replace (Z.pred (Z.of_nat (S k))) with (Z.of_nat k) by lia.
  cbn [map enumerate_from]. f_equal. apply IH.
Qed.

Lemma enumerate_ranges_of (size n part_size : Z) :
  enumerate (ranges_of size n part_size) =
  map (fun i => (i, (i * part_size,
                     Z.min ((i + 1) * part_size - 1) (size - 1)))) (range n).
Proof.
  unfold enumerate, ranges_of, range. destruct (Z_le_gt_dec n 0).
  - by rewrite seqZ_nil by lia.
  - replace n with (Z.of_nat (Z.to_nat n)) by lia. apply enumerate_from_map.
Qed.

Lemma run_parts_frame (servers : Z -> server) (filename : string)
    (parts : list (Z * (Z * Z))) (w : world) (p : string) :
  (forall i, i ∈ parts.*1 -> p <> part_file filename i) ->
  fs (snd (run_parts servers filename parts w)) !! p = fs w !! p.
Proof.
  revert w. induction parts as [|[i [start end_]] parts IH]; intros w Hp;
    [reflexivity|].
  cbn [run_parts].
  pose proof (download_range_unfold (servers i) filename start end_ i w) as Hu.
  pose proof (download_range_loop_files (servers i) (part_file filename i)
                start end_ (getsize (part_file filename i) w) w) as H1.
  rewrite <- Hu in H1.
  destruct (download_range _ _ _ _ _ _) as [s w1].
  destruct H1 as (_ & _ & _ & Hother & _).
  specialize (IH w1). destruct (run_parts _ _ _ _) as [s' w']. simpl in *.
  rewrite IH by (intros j Hj; apply Hp; by right).
  apply Hother. apply Hp. by left.
Qed.

Lemma merge_parts_frame (filename : string) (parts : list Z) (w : world)
    (p : string) :
  p <> filename -> (forall i, p <> part_file filename i) ->
  fs (snd (merge_parts filename parts w)) !! p = fs w !! p.
Proof.
  intros Hp1 Hp2. revert w. induction parts as [|i parts IH]; intros w;
    [reflexivity|].
  cbn [merge_parts]. cbv zeta.
  destruct (fs w !! part_file filename i) as [c|]; [|reflexivity].
  rewrite IH. unfold remove, write, set_fs. simpl.
  rewrite lookup_delete_ne by (apply not_eq_sym, Hp2).
  by rewrite lookup_insert_ne.
Qed.

Lemma merge_parts_frame_in (filename : string) (parts : list Z) (w : world)
    (p : string) :
  p <> filename -> (forall i, i ∈ parts -> p <> part_file filename i) ->
  fs (snd (merge_parts filename parts w)) !! p = fs w !! p.
Proof.
  intros Hp1. revert w. induction parts as [|i parts IH]; intros w Hp2;
    [reflexivity|].
  cbn [merge_parts]. cbv zeta.
  destruct (fs w !! part_file filename i) as [c|]; [|reflexivity].
  rewrite IH by (intros j Hj; apply Hp2; by apply list_elem_of_further).
  unfold remove, write, set_fs. simpl.
  rewrite lookup_delete_ne
    by (apply not_eq_sym, Hp2; apply list_elem_of_here).
  by rewrite lookup_insert_ne.
Qed.

(** Whatever the answers of the server and however the task ends, it
    touches no file but its destination and the part files of the parts it
    has planned: with [n] parts planned for the size the probe yields, every
    other file is left as it was, the part files of other indices, left by
    some earlier run, included. *)
Theorem task_touches_own_files_only (response : head_response)
    (servers : Z -> server) (filename : string) (w : world) (p : string) :
  p <> filename ->
  (forall file_size i,
     probe response = ret file_size -> 0 <= i < choose_threads file_size ->
     p <> part_file filename i) ->
  fs (snd (download_file_rich response servers filename w)) !! p = fs w !! p.
Proof.
  intros Hp1 Hp2. unfold download_file_rich.
  destruct (probe response) as [e|file_size] eqn:Hprobe; [reflexivity|].
  specialize (Hp2 file_size). 
  assert (Hown : forall i, i ∈ range (choose_threads file_size) ->
            p <> part_file filename i).
  { intros i Hi. apply elem_of_range in Hi. by apply Hp2. }
  destruct (exists_ filename _ && _); [reflexivity|].
  destruct (part_size_of _ _) as [e|part_size]; [reflexivity|].
  rewrite enumerate_ranges_of. set (w0 := World _ _ _).
  assert (Hrun : fs (snd (run_parts servers filename
             (map (fun i => (i, (i * part_size,
                     Z.min ((i + 1) * part_size - 1) (file_size - 1))))
                  (range (choose_threads file_size))) w0)) !! p = fs w !! p).
  { rewrite run_parts_frame; [reflexivity|].
    intros j Hj. apply list_elem_of_fmap in Hj as ([k r] & -> & Hj).
    apply list_elem_of_fmap in Hj as (k' & [= -> _] & Hk'). simpl.
    by apply Hown. }
  destruct (run_parts _ _ _ _) as [[] w1]; simpl in Hrun |- *; [|exact Hrun].
  set (w2 := emit _ w1).
  pose proof (merge_parts_frame_in filename (range (choose_threads file_size))
                (open_truncate filename w2) p Hp1 Hown) as Hm.
  unfold merge_step. destruct (merge_parts _ _ _) as [[e|] w3]; simpl in *;
    rewrite Hm; unfold open_truncate, set_fs; simpl;
    (rewrite lookup_insert_ne by done); exact Hrun.
Qed.

Lemma task_touches_own_files_only_witness :
  let response := HeadResponse 200 {[ "content-length" := "2" ]} in
  let srv := [fun (_ _ : Z) => Stream [[Byte.x0a; Byte.x0b]] true] in
  let w := World {[ "g" := [Byte.x01]; "f.part7" := [Byte.x02] ]} 0 [] in
  fst (download_file_rich response (fun _ => srv) "f" w) = Completed /\
  fs (snd (download_file_rich response (fun _ => srv) "f" w)) !! "f.part7"
    = Some [Byte.x02].
Proof.
  cbv zeta. split; [vm_compute; reflexivity|].
  rewrite task_touches_own_files_only; [vm_compute; reflexivity|discriminate|].
  intros file_size i Hprobe Hi.
  assert (Hp : probe (HeadResponse 200 {[ "content-length" := "2" ]}) = ret 2)
    by (vm_compute; reflexivity).
  rewrite Hp in Hprobe. injection Hprobe as <-.
  assert (Hn : choose_threads 2 = 1) by reflexivity.
  assert (i = 0) as -> by lia.
  vm_compute. discriminate.
Defined.

Lemma py_sum_update (l : list Z) (g g' : Z -> Z) (j : Z) :
  NoDup l -> j ∈ l -> (forall i, i ∈ l -> i <> j -> g' i = g i) ->
  py_sum (map g' l) = py_sum (map g l) + (g' j - g j).
Proof.
  intros Hnd. induction Hnd as [|x l Hx Hnd IH]; intros Hj Hsame.
  - by apply elem_of_nil in Hj.
  - simpl. apply elem_of_cons in Hj as [->|Hj].
    + assert (Hrest : map g' l = map g l).
      { apply map_ext_in. intros i Hi. apply list_elem_of_In in Hi.
        apply Hsame; [by right|]. intros ->. done. }
      rewrite Hrest. lia.
    + rewrite IH; [|done|intros i Hi Hne; apply Hsame; [by right|done]].
      rewrite (Hsame x); [lia|by left|]. intros ->. done.
Qed.

Lemma already_downloaded_sum (filename : string) (n : Z) (w : world) :
  already_downloaded filename n w =
  py_sum (map (fun i => getsize (part_file filename i) w) (range n)).
Proof.
  unfold already_downloaded. induction (range n) as [|i l IH]; [reflexivity|].
  rewrite filter_cons. destruct (decide _) as [He|He]; simpl.
  - by rewrite IH.
  - rewrite IH. apply not_true_is_false in He.
    assert (fs w !! part_file filename i = None) as Hnone.
    { destruct (fs w !! part_file filename i) eqn:Hl; [|reflexivity].
      assert (exists_ (part_file filename i) w = true)
        by (apply exists_true; by rewrite Hl). congruence. }
    unfold getsize at 2. rewrite Hnone. lia.
Qed.

Lemma run_parts_counter (servers : Z -> server) (filename : string) (n : Z)
    (f : Z -> Z * Z) (l : list Z) (w : world) :
  (forall i, i ∈ l -> i ∈ range n) ->
  let w' := snd (run_parts servers filename (map (fun i => (i, f i)) l) w) in
  progress_state w' - already_downloaded filename n w' =
  progress_state w - already_downloaded filename n w.
Proof.
  revert w. induction l as [|i l IH]; intros w Hl; [simpl; lia|].
  cbn [map run_parts]. destruct (f i) as [start end_] eqn:Hf.
  pose proof (download_range_unfold (servers i) filename start end_ i w) as Hu.
  pose proof (download_range_loop_progress (servers i) (part_file filename i)
                start end_ (getsize (part_file filename i) w) w) as Hprog.
  pose proof (download_range_loop_files (servers i) (part_file filename i)
                start end_ (getsize (part_file filename i) w) w) as Hfiles.
  rewrite <- Hu in Hprog, Hfiles.
  destruct (download_range _ _ _ _ _ _) as [s w1]. simpl in Hprog.
  destruct Hfiles as (_ & _ & _ & Hother & _).
  specialize (IH w1 ltac:(intros j Hj; apply Hl; by right)).
  destruct (run_parts _ _ _ _) as [s' w']. simpl in *.
  rewrite IH. rewrite !already_downloaded_sum.
  rewrite (py_sum_update (range n)
             (fun j => getsize (part_file filename j) w)
             (fun j => getsize (part_file filename j) w1) i).
  - lia.
  - apply NoDup_seqZ.
  - apply Hl. by left.
  - intros j _ Hne. unfold getsize. rewrite Hother; [reflexivity|].
    intros Heq. by apply part_file_inj in Heq.
Qed.

(** The workers keep the progress counter in step with the disk: started
    from the bytes already in the part files, the counter equals the bytes in
    the part files again once the workers have run, whatever the server sent
    and whether or not every worker returned. *)
Theorem workers_keep_counter_in_step (servers : Z -> server)
    (filename : string) (size n part_size : Z) (w : world) :
  progress_state w = already_downloaded filename n w ->
  let w' := snd (run_parts servers filename
                   (enumerate (ranges_of size n part_size)) w) in
  progress_state w' = already_downloaded filename n w'.
Proof.
  intros Hw w'. unfold w'. rewrite enumerate_ranges_of.
  pose proof (run_parts_counter servers filename n
                (fun i => (i * part_size,
                           Z.min ((i + 1) * part_size - 1) (size - 1)))
                (range n) w ltac:(done)) as H.
  cbv beta zeta in H |- *.
  match type of H with ?a - ?b = _ => set (x := a) in *; set (y := b) in * end.
  lia.
Qed.

Lemma workers_keep_counter_in_step_witness :
  let servers := fun i : Z =>
    if i =? 0 then [fun (_ _ : Z) => Stream [[Byte.x0a]; [Byte.x0b]] false]
    else [fun (_ _ : Z) => Stream [[Byte.x0c; Byte.x0d; Byte.x0e]] true] in
  let w := World {[ "f.part1" := [Byte.x01] ]} 1 [] in
  progress_state w = already_downloaded "f" 2 w /\
  progress_state (snd (run_parts servers "f" (enumerate (ranges_of 8 2 4)) w)) = 6.
Proof.
  cbv zeta.
  assert (H : progress_state (World {[ "f.part1" := [Byte.x01] ]} 1 []) =
              already_downloaded "f" 2 (World {[ "f.part1" := [Byte.x01] ]} 1 []))
    by (vm_compute; reflexivity).
  split; [exact H|].
  rewrite (workers_keep_counter_in_step _ "f" 8 2 4 _ H).
  vm_compute. reflexivity.
Defined.

(** ** A resource of no bytes *)

(** When the server reports a size of zero (or below), the destination is
    not already that size and part 0 has no file, nothing is requested: the
    single planned range is empty, the worker returns at once without
    creating its part file, and the merge then raises [FileNotFoundError]
    after it has created the destination empty. *)
Theorem nonpositive_size_fails_at_merge (response : head_response)
    (servers : Z -> server) (filename : string) (w : world)
    (file_size part_size : Z) :
  probe response = ret file_size ->
  file_size <= 0 ->
  part_size_of file_size 1 = ret part_size ->
  (forall content, fs w !! filename = Some content -> len content <> file_size) ->
  fs w !! part_file filename 0 = None ->
  download_file_rich response servers filename w =
    (Failed FileNotFoundError,
     World (<[filename := []]> (fs w)) 0
       (trace w ++ [EvHead; EvAddTask file_size 0; EvUpdate file_size])).
Proof.
  intros Hprobe Hsize Hps Hdest Hpart. unfold download_file_rich.
  rewrite Hprobe. unfold ret at 1.
  assert (Hskip : exists_ filename (emit EvHead w) &&
                  (getsize filename (emit EvHead w) =? file_size) = false).
  { unfold exists_, getsize. simpl.
    destruct (fs w !! filename) as [c|] eqn:Hc.
    - apply andb_false_iff. right. apply Z.eqb_neq. by apply Hdest.
    - apply andb_false_iff. left. apply bool_decide_eq_false.
      by intros [? ?]. }
  rewrite Hskip, choose_threads_small by lia. rewrite Hps. unfold ret at 1.
  assert (Hnone : exists_ (part_file filename 0) (emit EvHead w) = false).
  { apply not_true_iff_false. rewrite exists_true. simpl. rewrite Hpart.
    by intros [? ?]. }
  assert (Hadl : already_downloaded filename 1 (emit EvHead w) = 0).
  { unfold already_downloaded, range. rewrite seqZ_cons, seqZ_nil by lia.
    rewrite filter_cons, decide_False by (rewrite Hnone; discriminate).
    reflexivity. }
  rewrite Hadl. unfold ranges_of, range, enumerate.
  rewrite seqZ_cons, seqZ_nil by lia. cbn [map enumerate_from run_parts].
  unfold download_range.
  replace (exists_ (part_file filename 0) _) with false
    by (symmetry; apply not_true_iff_false; rewrite exists_true; simpl;
        rewrite Hpart; by intros [? ?]).
  rewrite download_range_loop_done by lia.
  unfold merge_step, range. rewrite seqZ_cons, seqZ_nil by lia.
  cbn [merge_parts]. cbv zeta.
  assert (Hp0 : part_file filename 0 <> filename) by apply part_file_ne_filename.
  unfold open_truncate, set_fs, emit. simpl.
  rewrite lookup_insert_ne by done. rewrite Hpart.
  unfold raise. do 2 f_equal. by rewrite <- !app_assoc.
Qed.

Lemma nonpositive_size_fails_at_merge_witness :
  let response := HeadResponse 200 {[ "content-length" := "0" ]} in
  probe response = ret 0 /\
  download_file_rich response (fun _ => []) "empty.bin" (World ∅ 0 []) =
    (Failed FileNotFoundError,
     World {[ "empty.bin" := [] ]} 0 [EvHead; EvAddTask 0 0; EvUpdate 0]).
Proof.
  cbv zeta.
  assert (Hprobe : probe (HeadResponse 200 {[ "content-length" := "0" ]}) = ret 0)
    by (vm_compute; reflexivity).
  split; [exact Hprobe|].
  rewrite (nonpositive_size_fails_at_merge _ (fun _ => []) "empty.bin"
             (World ∅ 0 []) 0 0 Hprobe ltac:(lia)
             ltac:(vm_compute; reflexivity)); [reflexivity| |].
  - intros content Hc. simpl in Hc. by rewrite lookup_empty in Hc.
  - reflexivity.
Defined.

(** ** Downloading from a server that holds the resource *)

Lemma slice_length (data : list Byte.byte) (first last : Z) :
  0 <= first -> first <= last + 1 -> last < len data ->
  len (slice data first last) = last - first + 1.
Proof.
  unfold slice, len. intros. rewrite length_take, length_drop. lia.
Qed.

Lemma slice_app (data : list Byte.byte) (first last d : Z) :
  0 <= first -> 0 <= d <= last - first + 1 ->
  slice data first last =
  take (Z.to_nat d) (slice data first last) ++ slice data (first + d) last.
Proof.
  intros Hf Hd. unfold slice. rewrite take_take.
  replace (Z.to_nat d `min` Z.to_nat (last - first + 1))%nat
    with (Z.to_nat d) by lia.
  replace (Z.to_nat (first + d)) with (Z.to_nat first + Z.to_nat d)%nat by lia.
  rewrite <- drop_drop, take_take_drop. f_equal. lia.
Qed.

Lemma prefix_take_length {A} (c s : list A) :
  c `prefix_of` s -> c = take (length c) s.
Proof. intros [k ->]. by rewrite take_app_length. Qed.

Lemma tiles_concat (data : list Byte.byte) (lo hi : Z) (rs : list (Z * Z)) :
  tiles lo hi rs -> 0 <= lo ->
  concat (map (fun r => slice data (fst r) (snd r)) rs) =
  take (Z.to_nat (hi - lo)) (drop (Z.to_nat lo) data).
Proof.
  revert lo. induction rs as [|[s e] rs IH]; simpl; intros lo Ht Hlo.
  - subst. by rewrite Z.sub_diag.
  - destruct Ht as (-> & Hse & Hrest).
    pose proof (tiles_bounds _ _ _ Hrest) as Hb.
    rewrite (IH _ Hrest) by lia. unfold slice.
    replace (Z.to_nat (e + 1)) with (Z.to_nat lo + Z.to_nat (e - lo + 1))%nat by lia.
    rewrite <- drop_drop, take_take_drop. f_equal. lia.
Qed.

(** The worker against a server that holds [data]: its part file stays a
    prefix of the bytes of its range, and holds all of them on return. *)
Lemma download_range_loop_serves (data : list Byte.byte) (srv : server)
    (path : string) (start end_ d : Z) (w : world) :
  Forall (serves data) srv ->
  0 <= start <= end_ -> end_ < len data ->
  d = len (default [] (fs w !! path)) ->
  default [] (fs w !! path) `prefix_of` slice data start end_ ->
  let '(st, w') := download_range_loop srv path start end_ d w in
  default [] (fs w' !! path) `prefix_of` slice data start end_ /\
  (st = Returned -> fs w' !! path = Some (slice data start end_)).
Proof.
  intros Hsrv Hrange Hend.
  pose proof (slice_length data start end_ ltac:(lia) ltac:(lia) Hend) as Hlen.
  revert d w. induction Hsrv as [|answer srv Hans Hsrv IH]; intros d w Hd Hpre;
    rewrite download_range_loop_eq;
    destruct (Z.ltb_spec d (end_ - start + 1)) as [Hlt|Hge].
  - split; [exact Hpre | discriminate].
  - split; [exact Hpre|]. intros _.
    assert (Heq : default [] (fs w !! path) = slice data start end_).
    { apply prefix_length_eq; [exact Hpre|]. unfold len in *. lia. }
    destruct (fs w !! path) as [c|]; simpl in *; [by rewrite Heq|].
    rewrite <- Heq in Hlen. unfold len in *. simpl in *. lia.
  - cbv zeta.
    assert (Hd0 : 0 <= d) by (subst d; apply len_nonneg).
    destruct (Hans (start + d) end_ ltac:(lia) Hend) as [Hbody Hfull].
    assert (Hsplit : slice data start end_ =
              default [] (fs w !! path) ++ slice data (start + d) end_).
    { rewrite (slice_app data start end_ d) at 1 by lia. f_equal.
      symmetry. etrans; [apply (prefix_take_length _ _ Hpre)|].
      f_equal. subst d. unfold len. lia. }
    destruct (answer (start + d) end_) as [|chunks complete].
    + apply IH; [exact Hd | exact Hpre].
    + set (w0 := open_append path (emit (EvGet (start + d) end_) w)).
      assert (Hc0 : fs w0 !! path = Some (default [] (fs w !! path))).
      { unfold w0. rewrite open_append_lookup. by rewrite decide_True. }
      pose proof (write_chunks_spec path chunks d w0 _ Hc0) as Hwc.
      destruct (write_chunks path chunks d w0) as [d' w1].
      destruct Hwc as (Hd' & Hfs & _). simpl in Hbody.
      assert (Hpre' : default [] (fs w !! path) ++ concat chunks
                      `prefix_of` slice data start end_).
      { rewrite Hsplit. by apply prefix_app. }
      destruct complete.
      * rewrite Hfs. simpl. split; [exact Hpre'|]. intros _.
        by rewrite (Hfull chunks eq_refl), <- Hsplit.
      * apply IH; simpl; rewrite Hfs; simpl; [|exact Hpre'].
        rewrite Hd', len_app. lia.
  - split; [exact Hpre|]. intros _.
    assert (Heq : default [] (fs w !! path) = slice data start end_).
    { apply prefix_length_eq; [exact Hpre|]. unfold len in *. lia. }
    destruct (fs w !! path) as [c|]; simpl in *; [by rewrite Heq|].
    rewrite <- Heq in Hlen. unfold len in *. simpl in *. lia.
Qed.

Lemma getsize_len_default (path : string) (w : world) :
  getsize path w = len (default [] (fs w !! path)).
Proof. unfold getsize. by destruct (fs w !! path). Qed.

Lemma run_parts_serves (data : list Byte.byte) (servers : Z -> server)
    (filename : string) (f : Z -> Z * Z) (l : list Z) (w : world) :
  (forall i, Forall (serves data) (servers i)) ->
  NoDup l ->
  (forall i, i ∈ l -> 0 <= fst (f i) <= snd (f i) /\ snd (f i) < len data) ->
  (forall i, i ∈ l ->
     default [] (fs w !! part_file filename i)
       `prefix_of` slice data (fst (f i)) (snd (f i))) ->
  let '(st, w') := run_parts servers filename (map (fun i => (i, f i)) l) w in
  (forall i, i ∈ l ->
     default [] (fs w' !! part_file filename i)
       `prefix_of` slice data (fst (f i)) (snd (f i))) /\
  (st = Returned ->
   forall i, i ∈ l ->
     fs w' !! part_file filename i = Some (slice data (fst (f i)) (snd (f i)))).
Proof.
  intros Hsrv Hnd. revert w.
  induction Hnd as [|i l Hi Hnd IH]; intros w Hin Hpre.
  - simpl. split; intros; by match goal with H : _ ∈ [] |- _ =>
      apply elem_of_nil in H end.
  - cbn [map run_parts]. destruct (f i) as [start end_] eqn:Hf.
    pose proof (download_range_unfold (servers i) filename start end_ i w) as Hu.
    pose proof (Hin i ltac:(left)) as [Hr1 Hr2]. rewrite Hf in Hr1, Hr2.
    pose proof (Hpre i ltac:(left)) as Hpi. rewrite Hf in Hpi. simpl in *.
    pose proof (download_range_loop_serves data (servers i)
                  (part_file filename i) start end_
                  (getsize (part_file filename i) w) w (Hsrv i) Hr1 Hr2
                  (getsize_len_default _ _) Hpi) as Hmine.
    pose proof (download_range_loop_files (servers i) (part_file filename i)
                  start end_ (getsize (part_file filename i) w) w) as Hfiles.
    rewrite <- Hu in Hmine, Hfiles.
    destruct (download_range _ _ _ _ _ _) as [s w1].
    destruct Hfiles as (_ & _ & _ & Hother & _).
    destruct Hmine as [Hpre1 Hdone1].
    assert (Hrest : forall j, j ∈ l ->
              fs w1 !! part_file filename j = fs w !! part_file filename j).
    { intros j Hj. apply Hother. intros Heq. apply part_file_inj in Heq.
      by subst. }
    specialize (IH w1 ltac:(intros j Hj; apply Hin; by right)
                  ltac:(intros j Hj; rewrite Hrest by done; apply Hpre; by right)).
    pose proof (run_parts_frame servers filename (map (fun i => (i, f i)) l)
                  w1 (part_file filename i)) as Hfr.
    destruct (run_parts _ _ _ _) as [s' w']. simpl in Hfr.
    assert (Hfr' : fs w' !! part_file filename i = fs w1 !! part_file filename i).
    { apply Hfr. intros j Hj Heq. apply part_file_inj in Heq. subst j.
      apply list_elem_of_fmap in Hj as ([j r] & -> & Hj).
      apply list_elem_of_fmap in Hj as (k & [= -> _] & Hk). simpl in Hi. done. }
    clear Hfr. rename Hfr' into Hfr.
    destruct IH as [IHpre IHdone]. split.
    + intros j Hj. apply elem_of_cons in Hj as [->|Hj];
        [rewrite Hfr, Hf; exact Hpre1 | by apply IHpre].
    + intros Hst j Hj. destruct s; [|discriminate].
      apply elem_of_cons in Hj as [->|Hj];
        [rewrite Hfr, Hf; by apply Hdone1 | by apply IHdone].
Qed.

Lemma run_parts_returns (servers : Z -> server) (filename : string)
    (parts : list (Z * (Z * Z))) (w : world) :
  (forall i, Exists completes (servers i)) ->
  fst (run_parts servers filename parts w) = Returned.
Proof.
  intros Hsrv. revert w. induction parts as [|[i [start end_]] parts IH];
    intros w; [reflexivity|].
  cbn [run_parts].
  pose proof (download_range_loop_returns (servers i) (part_file filename i)
                start end_ (getsize (part_file filename i) w) w (Hsrv i)) as H.
  rewrite <- download_range_unfold in H.
  destruct (download_range _ _ _ _ _ _) as [s w1]. simpl in H. subst s.
  specialize (IH w1). by destruct (run_parts _ _ _ _).
Qed.

Lemma ranges_of_lookup_Z (size n part_size i : Z) :
  0 <= i < n ->
  ranges_of size n part_size !! Z.to_nat i =
    Some (i * part_size, Z.min ((i + 1) * part_size - 1) (size - 1)).
Proof.
  intros Hi. unfold ranges_of, range. rewrite list_lookup_fmap.
  rewrite (lookup_seqZ_lt _ _ _) by lia. simpl.
  by replace (0 + Z.of_nat (Z.to_nat i)) with i by lia.
Qed.

Lemma py_sum_len_concat {A} (g : A -> list Byte.byte) (l : list A) :
  py_sum (map (fun i => len (g i)) l) = len (concat (map g l)).
Proof.
  induction l as [|x l IH]; [reflexivity|]. simpl. rewrite IH, len_app. lia.
Qed.

Lemma merge_parts_progress (filename : string) (parts : list Z) (w : world) :
  progress_state (snd (merge_parts filename parts w)) = progress_state w.
Proof.
  revert w. induction parts as [|i parts IH]; intros w; [reflexivity|].
  cbn [merge_parts]. cbv zeta.
  destruct (fs w !! part_file filename i); [|reflexivity]. by rewrite IH.
Qed.

Lemma already_downloaded_fs (filename : string) (n : Z) (w1 w2 : world) :
  fs w1 = fs w2 ->
  already_downloaded filename n w1 = already_downloaded filename n w2.
Proof.
  intros H. rewrite !already_downloaded_sum. f_equal. apply map_ext.
  intros i. unfold getsize. by rewrite H.
Qed.

(** The planning facts used below, for a resource of less than [2^53]
    bytes. *)
Lemma plan_exact (size : Z) :
  0 < size < 2 ^ 53 ->
  let n := choose_threads size in
  let part_size := (size + n - 1) / n in
  part_size_of size n = ret part_size /\
  plan size = ret (ranges_of size n part_size) /\
  tiles 0 size (ranges_of size n part_size) /\
  1 <= n /\ 1 <= part_size /\ (n - 1) * part_size <= size - 1.
Proof.
  intros [Hpos Hlt] n part_size.
  pose proof (choose_threads_le_size size Hpos) as Hle.
  pose proof (choose_threads_bounds size) as Hn. fold n in Hle, Hn.
  pose proof (part_size_exact size n ltac:(lia) Hle Hlt) as Hps.
  fold part_size in Hps.
  destruct (planned_part_size size part_size Hpos Hps) as [H1 Hlast].
  fold n in Hlast.
  assert (Hcov : size <= n * part_size) by (unfold part_size; div_lia).
  split; [exact Hps|]. split; [unfold plan; fold n; by rewrite Hps|].
  split; [apply ranges_of_tiles; lia|]. lia.
Qed.

(** The workers of a task against servers that hold [data]. *)
Lemma run_parts_resumable (data : list Byte.byte) (servers : Z -> server)
    (filename : string) (w : world) :
  0 < len data < 2 ^ 53 ->
  (forall i, Forall (serves data) (servers i)) ->
  resumable data filename w ->
  let size := len data in
  let n := choose_threads size in
  let part_size := (size + n - 1) / n in
  let '(st, w') := run_parts servers filename
                     (enumerate (ranges_of size n part_size)) w in
  resumable data filename w' /\
  fs w' !! filename = fs w !! filename /\
  (st = Returned ->
   forall i, 0 <= i < n ->
     fs w' !! part_file filename i =
       Some (slice data (i * part_size)
               (Z.min ((i + 1) * part_size - 1) (size - 1)))).
Proof.
  intros Hsize Hsrv Hres size n part_size.
  destruct (plan_exact size Hsize) as (Hps & Hplan & Ht & Hn & H1 & Hlast).
  fold n part_size in Hps, Hplan, Ht, Hn, H1, Hlast.
  rewrite enumerate_ranges_of.
  set (f := fun i => (i * part_size, Z.min ((i + 1) * part_size - 1) (size - 1))).
  pose proof (run_parts_serves data servers filename f (range n) w Hsrv
                (NoDup_seqZ _ _)) as Hrun.
  pose proof (run_parts_frame servers filename (map (fun i => (i, f i)) (range n))
                w filename ltac:(intros i _; apply not_eq_sym, part_file_ne_filename))
    as Hdest.
  destruct (run_parts _ _ _ _) as [st w']. simpl in Hdest.
  destruct Hrun as [Hpre Hdone].
  - intros i Hi. apply elem_of_range in Hi. unfold f. simpl.
    assert (i * part_size <= (n - 1) * part_size) by nia. fold size. lia.
  - intros i Hi. apply elem_of_range in Hi.
    replace i with (Z.of_nat (Z.to_nat i)) at 1 by lia.
    apply (Hres _ _ (f i) Hplan). by apply ranges_of_lookup_Z.
  - split; [|split; [exact Hdest|]].
    + intros rs i r Hrs Hr. fold size in Hrs. rewrite Hplan in Hrs.
      injection Hrs as <-. apply ranges_of_lookup in Hr as [Hi ->].
      apply (Hpre (Z.of_nat i)). apply elem_of_range. lia.
    + intros Hst i Hi. apply (Hdone Hst i). by apply elem_of_range.
Qed.

(** From part files that are resumable, against servers that hold [data]
    and end some response without error, the task completes. *)
Lemma download_completes (data : list Byte.byte) (response : head_response)
    (servers : Z -> server) (filename : string) (w : world) :
  probe response = ret (len data) ->
  0 < len data < 2 ^ 53 ->
  (forall content, fs w !! filename = Some content -> len content <> len data) ->
  (forall i, Forall (serves data) (servers i)) ->
  (forall i, Exists completes (servers i)) ->
  resumable data filename w ->
  exists w',
    download_file_rich response servers filename w = (Completed, w') /\
    fs w' !! filename = Some data /\
    (forall i, 0 <= i < choose_threads (len data) ->
       fs w' !! part_file filename i = None) /\
    progress_state w' = len data.
Proof.
  intros Hprobe Hsize Hdest Hsrv Hcompl Hres.
  destruct (plan_exact (len data) Hsize) as (Hps & Hplan & Ht & Hn & H1 & Hlast).
  set (size := len data) in *. set (n := choose_threads size) in *.
  set (part_size := (size + n - 1) / n) in *.
  unfold download_file_rich. rewrite Hprobe. unfold ret at 1.
  assert (Hskip : exists_ filename (emit EvHead w) &&
                  (getsize filename (emit EvHead w) =? size) = false).
  { unfold exists_, getsize. simpl.
    destruct (fs w !! filename) as [c|] eqn:Hc.
    - apply andb_false_iff. right. apply Z.eqb_neq. by apply Hdest.
    - apply andb_false_iff. left. apply bool_decide_eq_false. by intros [? ?]. }
  rewrite Hskip. fold n. rewrite Hps. unfold ret at 1.
  set (w0 := World _ _ _).
  assert (Hres0 : resumable data filename w0) by exact Hres.
  pose proof (run_parts_resumable data servers filename w0 Hsize Hsrv Hres0)
    as Hrun.
  cbv zeta in Hrun. fold size n part_size in Hrun.
  pose proof (run_parts_returns servers filename
                (enumerate (ranges_of size n part_size)) w0 Hcompl) as Hret.
  pose proof (run_parts_counter servers filename n
                (fun i => (i * part_size,
                           Z.min ((i + 1) * part_size - 1) (size - 1)))
                (range n) w0 ltac:(done)) as Hcount.
  cbv beta zeta in Hcount. rewrite <- enumerate_ranges_of in Hcount.
  destruct (run_parts _ _ _ _) as [st w1]. simpl in Hret, Hcount. subst st.
  destruct Hrun as (_ & _ & Hparts). specialize (Hparts eq_refl).
  assert (Hconcat : concat (map (fun i => slice data (i * part_size)
                       (Z.min ((i + 1) * part_size - 1) (size - 1))) (range n))
                    = data).
  { pose proof (tiles_concat data 0 size _ Ht ltac:(lia)) as Hc.
    unfold ranges_of in Hc. rewrite map_map in Hc. simpl in Hc.
    rewrite Hc. rewrite drop_0, Z.sub_0_r. apply take_ge. unfold size, len. lia. }
  assert (Hprog : progress_state w1 = size).
  { assert (H0 : already_downloaded filename n (emit EvHead w) =
                   already_downloaded filename n w0)
      by (by apply already_downloaded_fs).
    assert (Hsum : already_downloaded filename n w1 = size).
    { rewrite already_downloaded_sum.
      rewrite (map_ext_in _ (fun i => len (slice data (i * part_size)
                 (Z.min ((i + 1) * part_size - 1) (size - 1))))).
      - rewrite py_sum_len_concat, Hconcat. reflexivity.
      - intros i Hi. apply list_elem_of_In, elem_of_range in Hi.
        by rewrite (getsize_some _ _ _ (Hparts i Hi)). }
    lia. }
  set (w2 := emit (EvUpdate size) w1).
  destruct (merge_step_prefix filename n n w2 ltac:(lia)) as (w' & Hm & Hd & Hgone & _).
  - intros i Hi. unfold w2. simpl. rewrite (Hparts i Hi). eauto.
  - lia.
  - pose proof (merge_parts_progress filename (range n) (open_truncate filename w2))
      as Hmp.
    unfold merge_step in Hm |- *. rewrite Z.ltb_irrefl in Hm. rewrite Hm in *.
    simpl in Hmp. exists w'. split; [reflexivity|]. split; [|split].
    + rewrite Hd. f_equal. etrans; [|exact Hconcat].
      unfold concat_parts. f_equal. apply map_ext_in. intros i Hi. apply list_elem_of_In, elem_of_range in Hi.
      unfold w2. simpl. by rewrite (Hparts i Hi).
    + exact Hgone.
    + rewrite Hmp. exact Hprog.
Qed.

Lemma fresh_resumable (data : list Byte.byte) (filename : string) (w : world) :
  (forall i, fs w !! part_file filename i = None) ->
  resumable data filename w.
Proof. intros H rs i r _ _. rewrite H. apply prefix_nil. Qed.

Lemma whole_answer_serves (data : list Byte.byte) :
  serves data (fun first last => Stream [slice data first last] true) /\
  completes (fun first last => Stream [slice data first last] true).
Proof.
  split.
  - intros first last _ _. simpl. rewrite app_nil_r. split; [done|].
    intros chunks [= <-]. simpl. by rewrite app_nil_r.
  - intros first last. by eexists.
Qed.

Lemma cut_answer_serves (data : list Byte.byte) (k : nat) :
  serves data (fun first last => Stream [take k (slice data first last)] false).
Proof.
  intros first last _ _. simpl. rewrite app_nil_r.
  split; [apply prefix_take | discriminate].
Qed.

Lemma merge_parts_other_part (filename : string) (parts : list Z) (i : Z)
    (w : world) :
  i ∉ parts ->
  fs (snd (merge_parts filename parts w)) !! part_file filename i =
  fs w !! part_file filename i.
Proof.
  revert w. induction parts as [|j parts IH]; intros w Hi; [reflexivity|].
  apply not_elem_of_cons in Hi as [Hne Hi].
  cbn [merge_parts]. cbv zeta.
  destruct (fs w !! part_file filename j); [|reflexivity].
  rewrite IH by done. unfold remove, write, set_fs. simpl.
  rewrite lookup_delete_ne by (intros Heq; by apply part_file_inj in Heq).
  apply lookup_insert_ne. apply not_eq_sym, part_file_ne_filename.
Qed.

(** A part file whose index is none of the task's parts is left alone. *)
Lemma task_other_part_untouched (response : head_response)
    (servers : Z -> server) (filename : string) (w : world)
    (file_size i : Z) :
  probe response = ret file_size ->
  ~ 0 <= i < choose_threads file_size ->
  fs (snd (download_file_rich response servers filename w))
    !! part_file filename i = fs w !! part_file filename i.
Proof.
  intros Hprobe Hi. unfold download_file_rich. rewrite Hprobe. unfold ret at 1.
  destruct (exists_ filename _ && _); [reflexivity|].
  destruct (part_size_of _ _) as [e|part_size]; [reflexivity|].
  rewrite enumerate_ranges_of. set (w0 := World _ _ _).
  assert (Hrun : fs (snd (run_parts servers filename
             (map (fun i => (i, (i * part_size,
                     Z.min ((i + 1) * part_size - 1) (file_size - 1))))
                  (range (choose_threads file_size))) w0))
             !! part_file filename i = fs w !! part_file filename i).
  { rewrite run_parts_frame; [reflexivity|].
    intros j Hj Heq. apply part_file_inj in Heq. subst j.
    apply list_elem_of_fmap in Hj as ([j r] & -> & Hj).
    apply list_elem_of_fmap in Hj as (k & [= -> _] & Hk).
    apply elem_of_range in Hk. simpl in Hi. lia. }
  destruct (run_parts _ _ _ _) as [[] w1]; simpl in Hrun |- *; [|exact Hrun].
  set (w2 := emit _ w1).
  pose proof (merge_parts_other_part filename (range (choose_threads file_size))
                i (open_truncate filename w2)
                ltac:(intros Hin; apply elem_of_range in Hin; lia)) as Hm.
  unfold merge_step. destruct (merge_parts _ _ _) as [[e|] w3];
    simpl in Hm |- *; rewrite Hm; unfold open_truncate, set_fs; simpl;
    (rewrite lookup_insert_ne by apply not_eq_sym, part_file_ne_filename);
    exact Hrun.
Qed.

(** A first download from a server that holds the resource and honours the
    range header: with no part file around and a destination that is not
    already of the reported size, the task completes, the destination holds
    exactly the bytes of the resource, no part file is left, and the counter
    stands at the size of the resource. *)
Theorem fresh_download_completes (data : list Byte.byte)
    (response : head_response) (servers : Z -> server) (filename : string)
    (w : world) :
  probe response = ret (len data) ->
  0 < len data < 2 ^ 53 ->
  (forall content, fs w !! filename = Some content -> len content <> len data) ->
  (forall i, Forall (serves data) (servers i) /\ Exists completes (servers i)) ->
  (forall i, fs w !! part_file filename i = None) ->
  exists w',
    download_file_rich response servers filename w = (Completed, w') /\
    fs w' !! filename = Some data /\
    (forall i, fs w' !! part_file filename i = None) /\
    progress_state w' = len data.
Proof.
  intros Hprobe Hsize Hdest Hsrv Hfresh.
  destruct (download_completes data response servers filename w Hprobe Hsize
              Hdest (fun i => proj1 (Hsrv i)) (fun i => proj2 (Hsrv i))
              (fresh_resumable _ _ _ Hfresh)) as (w' & Hrun & Hd & Hgone & Hp).
  exists w'. repeat split; try done. intros i.
  destruct (decide (0 <= i < choose_threads (len data))) as [Hi|Hi];
    [by apply Hgone|].
  pose proof (task_other_part_untouched response servers filename w
                (len data) i Hprobe Hi) as Hframe.
  rewrite Hrun in Hframe. simpl in Hframe. by rewrite Hframe.
Qed.

Lemma fresh_download_completes_witness :
  let data := [Byte.x50; Byte.x4b; Byte.x03; Byte.x04] in
  let response := HeadResponse 200 {[ "content-length" := "4" ]} in
  let servers := fun _ : Z =>
    [fun (_ _ : Z) => Refused;
     fun first last => Stream [slice data first last] true] in
  probe response = ret (len data) /\
  exists w',
    download_file_rich response servers "a.zip" (World ∅ 0 []) = (Completed, w') /\
    fs w' !! "a.zip" = Some data.
Proof.
  cbv zeta.
  set (data := [Byte.x50; Byte.x4b; Byte.x03; Byte.x04]).
  assert (Hprobe : probe (HeadResponse 200 {[ "content-length" := "4" ]}) =
                   ret (len data)) by (vm_compute; reflexivity).
  split; [exact Hprobe|].
  destruct (fresh_download_completes data _
              (fun _ : Z => [fun (_ _ : Z) => Refused;
                 fun first last => Stream [slice data first last] true])
              "a.zip" (World ∅ 0 []) Hprobe) as (w' & Hrun & Hd & _).
  - vm_compute. split; reflexivity.
  - intros content Hc. simpl in Hc. by rewrite lookup_empty in Hc.
  - intros i. split.
    + constructor; [|constructor; [apply whole_answer_serves|constructor]].
      intros first last _ _. simpl. split; [apply prefix_nil | discriminate].
    + right. left. apply whole_answer_serves.
  - intros i. simpl. apply lookup_empty.
  - exists w'. by split.
Defined.

(** Once a download from such a server has completed, running the same
    task again does nothing but the [HEAD] request: it is skipped, whatever the
    server would now answer to range requests. *)
Theorem completed_download_is_skipped_next (data : list Byte.byte)
    (response : head_response) (servers servers' : Z -> server)
    (filename : string) (w : world) :
  probe response = ret (len data) ->
  0 < len data < 2 ^ 53 ->
  (forall content, fs w !! filename = Some content -> len content <> len data) ->
  (forall i, Forall (serves data) (servers i) /\ Exists completes (servers i)) ->
  resumable data filename w ->
  exists w',
    download_file_rich response servers filename w = (Completed, w') /\
    download_file_rich response servers' filename w' =
      (SkippedAlreadyComplete, emit EvHead w').
Proof.
  intros Hprobe Hsize Hdest Hsrv Hres.
  destruct (download_completes data response servers filename w Hprobe Hsize
              Hdest (fun i => proj1 (Hsrv i)) (fun i => proj2 (Hsrv i)) Hres)
    as (w' & Hrun & Hd & _).
  exists w'. split; [exact Hrun|].
  unfold download_file_rich. rewrite Hprobe. unfold ret at 1.
  assert (He : exists_ filename (emit EvHead w') = true)
    by (apply exists_true; simpl; by rewrite Hd).
  rewrite He, (getsize_some filename (emit EvHead w') data Hd).
  by rewrite Z.eqb_refl.
Qed.

Lemma completed_download_is_skipped_next_witness :
  let data := [Byte.x50; Byte.x4b; Byte.x03; Byte.x04] in
  let response := HeadResponse 200 {[ "content-length" := "4" ]} in
  let servers := fun _ : Z =>
    [fun first last => Stream [slice data first last] true] in
  let w := World {[ "a.zip.part0" := [Byte.x50; Byte.x4b] ]} 0 [] in
  probe response = ret (len data) /\
  exists w',
    download_file_rich response servers "a.zip" w = (Completed, w') /\
    download_file_rich response (fun _ => []) "a.zip" w' =
      (SkippedAlreadyComplete, emit EvHead w').
Proof.
  cbv zeta.
  set (data := [Byte.x50; Byte.x4b; Byte.x03; Byte.x04]).
  assert (Hprobe : probe (HeadResponse 200 {[ "content-length" := "4" ]}) =
                   ret (len data)) by (vm_compute; reflexivity).
  split; [exact Hprobe|].
  apply (completed_download_is_skipped_next data _ _ (fun _ => []) "a.zip" _ Hprobe).
  - vm_compute. split; reflexivity.
  - intros content Hc. vm_compute in Hc. discriminate.
  - intros i. split.
    + constructor; [apply whole_answer_serves|constructor].
    + left. apply whole_answer_serves.
  - intros rs i r Hrs Hr. vm_compute in Hrs. injection Hrs as <-.
    destruct i as [|i]; [|destruct i; discriminate].
    injection Hr as <-. exists [Byte.x03; Byte.x04]. vm_compute. reflexivity.
Defined.

(** A download that was cut short resumes: when a run against a server that
    holds the resource did not finish, a later run of the same task against
    such a server, one that ends some response without error, completes and
    the destination holds exactly the bytes of the resource. *)
Theorem interrupted_download_resumes (data : list Byte.byte)
    (response : head_response) (servers1 servers2 : Z -> server)
    (filename : string) (w w1 : world) :
  probe response = ret (len data) ->
  0 < len data < 2 ^ 53 ->
  (forall content, fs w !! filename = Some content -> len content <> len data) ->
  resumable data filename w ->
  (forall i, Forall (serves data) (servers1 i)) ->
  download_file_rich response servers1 filename w = (Unfinished, w1) ->
  (forall i, Forall (serves data) (servers2 i) /\ Exists completes (servers2 i)) ->
  exists w2,
    download_file_rich response servers2 filename w1 = (Completed, w2) /\
    fs w2 !! filename = Some data /\
    (forall i, 0 <= i < choose_threads (len data) ->
       fs w2 !! part_file filename i = None).
Proof.
  intros Hprobe Hsize Hdest Hres Hsrv1 Hfirst Hsrv2.
  destruct (plan_exact (len data) Hsize) as (Hps & _).
  assert (Hw1 : resumable data filename w1 /\
                fs w1 !! filename = fs w !! filename).
  { revert Hfirst. unfold download_file_rich. rewrite Hprobe. unfold ret at 1.
    destruct (exists_ filename _ && _); [discriminate|].
    rewrite Hps. unfold ret at 1. set (w0 := World _ _ _).
    pose proof (run_parts_resumable data servers1 filename w0 Hsize Hsrv1 Hres)
      as Hrun. cbv zeta in Hrun.
    destruct (run_parts _ _ _ _) as [[] w1'].
    - destruct (merge_step _ _ _) as [[e|] w3]; discriminate.
    - intros [= <-]. destruct Hrun as (Hres1 & Hd1 & _). by split. }
  destruct Hw1 as [Hres1 Hd1].
  destruct (download_completes data response servers2 filename w1 Hprobe Hsize
              ltac:(rewrite Hd1; exact Hdest)
              (fun i => proj1 (Hsrv2 i)) (fun i => proj2 (Hsrv2 i)) Hres1)
    as (w2 & Hrun & Hd & Hgone & _).
  exists w2. by repeat split.
Qed.

Lemma interrupted_download_resumes_witness :
  let data := [Byte.x50; Byte.x4b; Byte.x03; Byte.x04] in
  let response := HeadResponse 200 {[ "content-length" := "4" ]} in
  let servers1 := fun _ : Z =>
    [fun first last => Stream [take 3 (slice data first last)] false] in
  let servers2 := fun _ : Z =>
    [fun first last => Stream [slice data first last] true] in
  let w1 := snd (download_file_rich response servers1 "a.zip" (World ∅ 0 [])) in
  download_file_rich response servers1 "a.zip" (World ∅ 0 []) = (Unfinished, w1) /\
  fs w1 !! "a.zip.part0" = Some [Byte.x50; Byte.x4b; Byte.x03] /\
  exists w2,
    download_file_rich response servers2 "a.zip" w1 = (Completed, w2) /\
    fs w2 !! "a.zip" = Some data.
Proof.
  cbv zeta.
  set (data := [Byte.x50; Byte.x4b; Byte.x03; Byte.x04]).
  set (response := HeadResponse 200 {[ "content-length" := "4" ]}).
  set (servers1 := fun _ : Z =>
    [fun first last => Stream [take 3 (slice data first last)] false]).
  assert (Hprobe : probe response = ret (len data)) by (vm_compute; reflexivity).
  assert (Hfirst : download_file_rich response servers1 "a.zip" (World ∅ 0 []) =
            (Unfinished,
             snd (download_file_rich response servers1 "a.zip" (World ∅ 0 []))))
    by (vm_compute; reflexivity).
  split; [exact Hfirst|]. split; [vm_compute; reflexivity|].
  destruct (interrupted_download_resumes data response servers1
              (fun _ : Z => [fun first last => Stream [slice data first last] true])
              "a.zip" (World ∅ 0 [])
              (snd (download_file_rich response servers1 "a.zip" (World ∅ 0 [])))
              Hprobe) as (w2 & Hrun & Hd & _).
  - vm_compute. split; reflexivity.
  - intros content Hc. simpl in Hc. by rewrite lookup_empty in Hc.
  - apply fresh_resumable. intros i. simpl. apply lookup_empty.
  - intros i. constructor; [apply cut_answer_serves|constructor].
  - exact Hfirst.
  - intros i. split.
    + constructor; [apply whole_answer_serves|constructor].
    + left. apply whole_answer_serves.
  - exists w2. by split.
Defined.

(** * File names and input files *)

Lemma append_nil_l (s : string) : EmptyString +:+ s = s.
Proof. reflexivity. Qed.

Lemma append_cons (c : ascii) (s t : string) :
  String c s +:+ t = String c (s +:+ t).
Proof. reflexivity. Qed.

Lemma occurs_append (c : ascii) (s t : string) :
  occurs c (s +:+ t) <-> occurs c s \/ occurs c t.
Proof.
  induction s as [|a s IH].
  - rewrite append_nil_l. simpl. tauto.
  - rewrite append_cons. simpl. rewrite IH. tauto.
Qed.

Lemma occurs_take_str (c : ascii) (n : nat) (s : string) :
  occurs c (take_str n s) -> occurs c s.
Proof.
  revert s. induction n as [|n IH]; intros [|a s]; simpl; try tauto.
  intros [?|?]; [by left | right; by apply IH].
Qed.

Lemma occurs_drop_str (c : ascii) (n : nat) (s : string) :
  occurs c (drop_str n s) -> occurs c s.
Proof.
  revert s. induction n as [|n IH]; intros [|a s]; simpl; try tauto.
  intros ?. right. by apply IH.
Qed.

Lemma length_append_str (s t : string) :
  String.length (s +:+ t) = (String.length s + String.length t)%nat.
Proof.
  induction s as [|a s IH]; [reflexivity|].
  rewrite append_cons. simpl. by rewrite IH.
Qed.

Lemma length_take_str (n : nat) (s : string) :
  String.length (take_str n s) = (n `min` String.length s)%nat.
Proof.
  revert s. induction n as [|n IH]; intros [|a s]; simpl; try reflexivity.
  by rewrite IH.
Qed.

Lemma length_drop_str (n : nat) (s : string) :
  String.length (drop_str n s) = (String.length s - n)%nat.
Proof.
  revert s. induction n as [|n IH]; intros [|a s]; simpl; try reflexivity.
  by rewrite IH.
Qed.


Lemma prefix_single (c a : ascii) (s : string) :
  String.prefix (String c EmptyString) (String a s) =
  if ascii_dec c a then true else false.
Proof. simpl. destruct (ascii_dec c a); [by destruct s | reflexivity]. Qed.

(** Removing a character leaves none of it. *)
Lemma replace_char_removes (c : ascii) (s : string) :
  ~ occurs c (str_replace (String c EmptyString) EmptyString s).
Proof.
  unfold str_replace. induction s as [|a s IH]; [simpl; tauto|].
  cbn [replace_go]. rewrite prefix_single.
  destruct (ascii_dec c a) as [->|Hne].
  - by rewrite append_nil_l.
  - simpl. intros [?|?]; [by subst | done].
Qed.



Lemma clean_filename_rules (filename : string) :
  (String.length (clean_filename filename) <= 205)%nat /\
  ~ occurs dquote (clean_filename filename).
Proof.
  unfold clean_filename. cbv zeta.
  set (s := str_replace (String dquote EmptyString) EmptyString _).
  assert (Hs : ~ occurs dquote s) by apply replace_char_removes.
  destruct (Nat.ltb_spec 205 (String.length s)).
  - split.
    + rewrite length_append_str, length_take_str, length_drop_str. lia.
    + rewrite occurs_append. intros [H'|H'].
      * by apply occurs_take_str in H'.
      * by apply occurs_drop_str in H'.
  - split; [lia | exact Hs].
Qed.

(** For a directory given as a string and, in [ep] mode, a [HEAD] request
    that was answered: outside [ep] mode, and in [ep] mode when the answer
    has a [Content-Disposition] header, [get_filepath] returns the directory
    joined with a file name of at most 205 characters that holds no double
    quote; in [ep] mode an answer without that header raises [KeyError].
    What [Path] does with a directory that is not a string, and a [HEAD]
    request that raises, are not covered. *)
Theorem get_filepath_name_rules (joinpath : string -> string -> string)
    (response : head_response) (url dir_path : string) (ep : bool) :
  (ep = false \/ is_Some (header "Content-Disposition" response) ->
   exists name,
     get_filepath joinpath response url dir_path ep =
       ret (joinpath dir_path name) /\
     (String.length name <= 205)%nat /\
     ~ occurs dquote name) /\
  (ep = true -> header "Content-Disposition" response = None ->
   get_filepath joinpath response url dir_path ep = raise KeyError).
Proof.
  unfold get_filepath. split.
  - intros [->|[value Hvalue]].
    + eexists. split; [reflexivity|]. apply clean_filename_rules.
    + destruct ep.
      * rewrite Hvalue. eexists. split; [reflexivity|].
        apply clean_filename_rules.
      * eexists. split; [reflexivity|]. apply clean_filename_rules.
  - intros -> ->. reflexivity.
Qed.

Lemma get_filepath_name_rules_witness :
  let joinpath := fun d n : string => d +:+ "/" +:+ n in
  let response :=
    HeadResponse 200 {[ "content-disposition" := "attachment; filename=a.zip" ]} in
  (exists name,
     get_filepath joinpath response "http://h/x" "d" true =
       ret (joinpath "d" name) /\
     (String.length name <= 205)%nat /\ ~ occurs dquote name) /\
  get_filepath joinpath (HeadResponse 200 ∅) "http://h/x" "d" true =
    raise KeyError.
Proof.
  cbv zeta. split.
  - apply get_filepath_name_rules. right. vm_compute. eexists. reflexivity.
  - apply get_filepath_name_rules; [reflexivity | vm_compute; reflexivity].
Defined.


Lemma split_trailing_separator (c : ascii) (s : string) :
  exists piece pieces,
    split_go (String c EmptyString) (s +:+ String c EmptyString) 0 =
    piece :: pieces ++ [EmptyString].
Proof.
  induction s as [|a s (piece & pieces & IH)].
  - exists EmptyString, []. rewrite append_nil_l. cbn [split_go].
    rewrite prefix_single. by destruct (ascii_dec c c).
  - rewrite append_cons. cbn [split_go].
    change (String.length (String c EmptyString) - 1)%nat with 0%nat.
    rewrite prefix_single, IH. destruct (ascii_dec c a).
    + by exists EmptyString, (piece :: pieces).
    + by exists (String a piece), pieces.
Qed.

(** A URL that ends in a slash names no file: the path returned is the
    directory joined with the empty name. *)
Theorem get_filepath_trailing_slash (joinpath : string -> string -> string)
    (response : head_response) (url dir_path : string) :
  get_filepath joinpath response (url +:+ "/") dir_path false =
    ret (joinpath dir_path EmptyString).
Proof.
  unfold get_filepath, str_split, last_piece.
  destruct (split_trailing_separator "/" url) as (piece & pieces & ->).
  by rewrite app_comm_cons, last_snoc.
Qed.

Lemma touch_missing_lookup (paths : list string) (w : world) (p : string) :
  let w' := foldl (fun w path => if negb (exists_ path w) then touch path w else w)
              w paths in
  fs w' !! p = (if decide (p ∈ paths) then Some (default [] (fs w !! p))
                else fs w !! p) /\
  progress_state w' = progress_state w /\ trace w' = trace w.
Proof.
  cbv zeta. revert w. induction paths as [|path paths IH]; intros w.
  - cbn [foldl]. destruct (decide (p ∈ [])) as [H|_]; [|done].
    by apply elem_of_nil in H.
  - cbn [foldl].
    set (w1 := if negb (exists_ path w) then touch path w else w).
    assert (H1 : fs w1 !! p = (if decide (p = path)
                               then Some (default [] (fs w !! p))
                               else fs w !! p) /\
                 progress_state w1 = progress_state w /\ trace w1 = trace w).
    { unfold w1, touch. destruct (exists_ path w) eqn:He; simpl.
      - apply exists_true in He as [c Hc]. split; [|done].
        destruct (decide (p = path)) as [->|]; [by rewrite Hc | done].
      - rewrite open_append_lookup. split; [|apply open_append_rest].
        by destruct (decide (p = path)) as [->|]. }
    destruct H1 as (Hfs1 & Hp1 & Ht1). destruct (IH w1) as (Hfs & Hp & Ht).
    rewrite Hfs, Hp, Ht, Hfs1, Hp1, Ht1. split; [|done].
    destruct (decide (p = path)) as [->|Hne].
    + rewrite (decide_True (P := path ∈ path :: paths))
        by apply list_elem_of_here.
      by destruct (decide (path ∈ paths)).
    + destruct (decide (p ∈ paths)) as [Hin|Hin].
      * by rewrite (decide_True (P := p ∈ path :: paths))
          by (by apply list_elem_of_further).
      * rewrite (decide_False (P := p ∈ path :: paths)); [done|].
        by apply not_elem_of_cons.
Qed.

(** [checkInputFiles] creates, empty, those of the three input files that
    are missing and does nothing else: a file that exists keeps its content,
    no other file appears, all three exist afterwards, and a second call
    changes nothing. *)
Theorem checkInputFiles_creates_missing_only
    (joinpath : string -> string -> string) (SCRIPT_DIR : string) (w : world) :
  let inputs := [TXT_DATA_FILEPATH joinpath SCRIPT_DIR;
                 JSON_DATA_FILEPATH joinpath SCRIPT_DIR;
                 UNFINISHED_DOWNLOADS_FILEPATH joinpath SCRIPT_DIR] in
  let w' := checkInputFiles joinpath SCRIPT_DIR w in
  (forall p content, fs w !! p = Some content -> fs w' !! p = Some content) /\
  (forall p, fs w !! p = None ->
     fs w' !! p = if decide (p ∈ inputs) then Some [] else None) /\
  (forall p, p ∈ inputs -> is_Some (fs w' !! p)) /\
  checkInputFiles joinpath SCRIPT_DIR w' = w'.
Proof.
  intros inputs. cbv zeta.
  assert (Hspec : forall v p,
            fs (checkInputFiles joinpath SCRIPT_DIR v) !! p =
              (if decide (p ∈ inputs) then Some (default [] (fs v !! p))
               else fs v !! p) /\
            progress_state (checkInputFiles joinpath SCRIPT_DIR v) = progress_state v /\
            trace (checkInputFiles joinpath SCRIPT_DIR v) = trace v).
  { intros v p. apply (touch_missing_lookup inputs v p). }
  split; [|split; [|split]].
  - intros p content Hc. rewrite (proj1 (Hspec w p)), Hc.
    by destruct (decide _).
  - intros p Hc. by rewrite (proj1 (Hspec w p)), Hc.
  - intros p Hp. rewrite (proj1 (Hspec w p)). rewrite decide_True by done. eauto.
  - pose proof (fun p => proj1 (Hspec w p)) as H1.
    destruct (checkInputFiles joinpath SCRIPT_DIR w) as [f1 p1 t1].
    pose proof (Hspec (World f1 p1 t1)) as H2.
    destruct (checkInputFiles joinpath SCRIPT_DIR (World f1 p1 t1)) as [f2 p2 t2].
    simpl in H1, H2. destruct (H2 "") as (_ & -> & ->). f_equal.
    apply map_eq. intros p. rewrite (proj1 (H2 p)).
    destruct (decide (p ∈ inputs)) as [Hin|]; [|reflexivity].
    specialize (H1 p). rewrite decide_True in H1 by done. by rewrite H1.
Qed.

(** * The destination and servers that ignore the range *)

Lemma merge_parts_error (filename : string) (parts : list Z) (w : world) (e : exn) :
  fst (merge_parts filename parts w) = raise e -> e = FileNotFoundError.
Proof.
  revert w. induction parts as [|i parts IH]; intros w; [discriminate|].
  cbn [merge_parts]. cbv zeta.
  destruct (fs w !! part_file filename i); [apply IH|]. by intros [= <-].
Qed.

(** The destination is written by the merge step and by nothing else: a task
    that is skipped, that does not finish, or that fails other than by a
    missing part file at the merge leaves the destination as it was. *)
Theorem destination_written_only_by_merge (response : head_response)
    (servers : Z -> server) (filename : string) (w w' : world)
    (outcome : task_result) :
  download_file_rich response servers filename w = (outcome, w') ->
  outcome <> Completed -> outcome <> Failed FileNotFoundError ->
  fs w' !! filename = fs w !! filename.
Proof.
  unfold download_file_rich.
  destruct (probe response) as [e|file_size]; [by intros [= <- <-]|].
  destruct (exists_ filename _ && _); [by intros [= <- <-]|].
  destruct (part_size_of _ _) as [e|part_size]; [by intros [= <- <-]|].
  set (parts := enumerate _). set (w0 := World _ _ _).
  pose proof (run_parts_frame servers filename parts w0 filename
                ltac:(intros i _; apply not_eq_sym, part_file_ne_filename))
    as Hrun.
  destruct (run_parts servers filename parts w0) as [[] w1]; simpl in Hrun;
    [|by intros [= <- <-]].
  unfold merge_step.
  pose proof (merge_parts_error filename (range (choose_threads file_size))
                (open_truncate filename (emit (EvUpdate file_size) w1))) as He.
  destruct (merge_parts _ _ _) as [[e|] w2]; intros [= <- <-] H1 H2; [|done].
  rewrite (He e eq_refl) in H2. done.
Qed.

Lemma destination_written_only_by_merge_witness :
  let response := HeadResponse 200 {[ "content-length" := "4" ]} in
  let servers := fun _ : Z => [fun (_ _ : Z) => Stream [[Byte.x0a]] false] in
  let w := World {[ "f" := [Byte.x01] ]} 0 [] in
  fst (download_file_rich response servers "f" w) = Unfinished /\
  fs (snd (download_file_rich response servers "f" w)) !! "f" = Some [Byte.x01].
Proof.
  cbv zeta.
  set (r := download_file_rich _ _ _ _).
  assert (Hr : r = (Unfinished, snd r)) by (vm_compute; reflexivity).
  split; [by rewrite Hr|].
  rewrite (destination_written_only_by_merge _ _ _ _ _ _ Hr); [reflexivity|done|done].
Defined.

Lemma ignoring_worker (data : list Byte.byte) (answer : Z -> Z -> response)
    (srv : server) (filename : string) (start end_ i : Z) (w : world) :
  ignores_range data answer -> start <= end_ ->
  fs w !! part_file filename i = None ->
  let '(st, w') := download_range (answer :: srv) filename start end_ i w in
  st = Returned /\ fs w' !! part_file filename i = Some data /\
  (forall p, p <> part_file filename i -> fs w' !! p = fs w !! p).
Proof.
  intros Hans Hse Hnone. rewrite download_range_unfold.
  rewrite (getsize_len_default _ w), Hnone. simpl.
  rewrite download_range_loop_eq. change (len []) with 0.
  destruct (Z.ltb_spec 0 (end_ - start + 1)); [|lia]. cbv zeta.
  destruct (Hans (start + 0) end_) as (chunks & -> & Hdata).
  set (w0 := open_append _ _).
  assert (Hc0 : fs w0 !! part_file filename i = Some []).
  { unfold w0. rewrite open_append_lookup, decide_True by done. simpl.
    by rewrite Hnone. }
  pose proof (write_chunks_spec (part_file filename i) chunks 0 w0 [] Hc0) as Hwc.
  destruct (write_chunks _ _ _ _) as [d' w1].
  destruct Hwc as (_ & Hfs & Hother & _).
  split; [reflexivity|]. split; [by rewrite Hfs, Hdata|].
  intros p Hp. rewrite Hother by done. unfold w0.
  rewrite open_append_lookup. by rewrite decide_False.
Qed.

Lemma run_parts_ignoring (data : list Byte.byte) (servers : Z -> server)
    (filename : string) (f : Z -> Z * Z) (l : list Z) (w : world) :
  (forall i, exists answer srv,
     servers i = answer :: srv /\ ignores_range data answer) ->
  NoDup l ->
  (forall i, i ∈ l -> fst (f i) <= snd (f i)) ->
  (forall i, i ∈ l -> fs w !! part_file filename i = None) ->
  let '(st, w') := run_parts servers filename (map (fun i => (i, f i)) l) w in
  st = Returned /\
  forall i, i ∈ l -> fs w' !! part_file filename i = Some data.
Proof.
  intros Hsrv Hnd. revert w.
  induction Hnd as [|i l Hi Hnd IH]; intros w Hne Hnone.
  - simpl. split; [done|]. intros i Hi. by apply elem_of_nil in Hi.
  - cbn [map run_parts]. destruct (f i) as [start end_] eqn:Hf.
    destruct (Hsrv i) as (answer & srv & -> & Hans).
    pose proof (Hne i ltac:(apply list_elem_of_here)) as Hse.
    rewrite Hf in Hse. simpl in Hse.
    pose proof (ignoring_worker data answer srv filename start end_ i w Hans Hse
                  (Hnone i ltac:(apply list_elem_of_here))) as H1.
    destruct (download_range _ _ _ _ _ _) as [s w1].
    destruct H1 as (-> & Hmine & Hother).
    specialize (IH w1 ltac:(intros j Hj; apply Hne; by apply list_elem_of_further)).
    pose proof (run_parts_frame servers filename (map (fun i => (i, f i)) l)
                  w1 (part_file filename i)) as Hfr.
    destruct (run_parts _ _ _ _) as [s' w'].
    destruct IH as [-> Hall].
    { intros j Hj. rewrite Hother; [apply Hnone; by apply list_elem_of_further|].
      intros Heq. apply part_file_inj in Heq. by subst. }
    split; [reflexivity|]. intros j Hj.
    apply elem_of_cons in Hj as [->|Hj]; [|by apply Hall].
    simpl in Hfr. rewrite Hfr; [exact Hmine|].
    intros j Hj Heq. apply part_file_inj in Heq. subst j.
    apply list_elem_of_fmap in Hj as ([j r] & -> & Hj).
    apply list_elem_of_fmap in Hj as (k & [= -> _] & Hk). simpl in Hi. done.
Qed.

Lemma map_const_replicate {A B} (x : B) (l : list A) :
  map (fun _ => x) l = replicate (length l) x.
Proof. induction l as [|a l IH]; [reflexivity|]. simpl. by rewrite IH. Qed.

Lemma len_concat_replicate (n : nat) (data : list Byte.byte) :
  len (concat (replicate n data)) = Z.of_nat n * len data.
Proof.
  induction n as [|n IH]; [reflexivity|].
  cbn [replicate concat]. rewrite len_app, IH. lia.
Qed.

(** Against a server that ignores the range header and answers every
    request with the whole resource, a first download still ends as
    completed, but every one of the [n] parts holds the whole resource: the
    destination is the resource [n] times over, and the counter stands at [n]
    times its size.  The file is right only when a single part was planned. *)
Theorem range_ignoring_server_duplicates (data : list Byte.byte)
    (response : head_response) (servers : Z -> server) (filename : string)
    (w : world) :
  probe response = ret (len data) ->
  0 < len data < 2 ^ 53 ->
  (forall content, fs w !! filename = Some content -> len content <> len data) ->
  (forall i, exists answer srv,
     servers i = answer :: srv /\ ignores_range data answer) ->
  (forall i, fs w !! part_file filename i = None) ->
  let n := choose_threads (len data) in
  exists w',
    download_file_rich response servers filename w = (Completed, w') /\
    fs w' !! filename = Some (concat (replicate (Z.to_nat n) data)) /\
    progress_state w' = n * len data.
Proof.
  intros Hprobe Hsize Hdest Hsrv Hfresh n.
  destruct (plan_exact (len data) Hsize) as (Hps & Hplan & Ht & Hn & H1 & Hlast).
  set (size := len data) in *. fold n in Hps, Hplan, Ht, Hn, Hlast, H1.
  set (part_size := (size + n - 1) / n) in *.
  unfold download_file_rich. rewrite Hprobe. unfold ret at 1.
  assert (Hskip : exists_ filename (emit EvHead w) &&
                  (getsize filename (emit EvHead w) =? size) = false).
  { unfold exists_, getsize. simpl.
    destruct (fs w !! filename) as [c|] eqn:Hc.
    - apply andb_false_iff. right. apply Z.eqb_neq. by apply Hdest.
    - apply andb_false_iff. left. apply bool_decide_eq_false. by intros [? ?]. }
  rewrite Hskip. fold n. rewrite Hps. unfold ret at 1.
  set (w0 := World _ _ _). rewrite enumerate_ranges_of.
  set (f := fun i => (i * part_size, Z.min ((i + 1) * part_size - 1) (size - 1))).
  pose proof (run_parts_ignoring data servers filename f (range n) w0 Hsrv
                (NoDup_seqZ _ _)) as Hrun.
  pose proof (run_parts_counter servers filename n f (range n) w0 ltac:(done))
    as Hcount. cbv zeta in Hcount.
  destruct (run_parts _ _ _ _) as [st w1]. simpl in Hcount.
  destruct Hrun as [-> Hparts].
  { intros i Hi. apply elem_of_range in Hi. unfold f. simpl.
    assert (i * part_size <= (n - 1) * part_size) by nia. lia. }
  { intros i _. apply Hfresh. }
  assert (Hlenr : length (range n) = Z.to_nat n)
    by (unfold range; apply length_seqZ).
  assert (Hprog : progress_state w1 = n * size).
  { assert (H0 : already_downloaded filename n (emit EvHead w) =
                 already_downloaded filename n w0)
      by (by apply already_downloaded_fs).
    assert (Hsum : already_downloaded filename n w1 = n * size).
    { rewrite already_downloaded_sum.
      rewrite (map_ext_in _ (fun _ => len data)).
      - rewrite (py_sum_len_concat (fun _ : Z => data)), map_const_replicate.
        rewrite len_concat_replicate, Hlenr. fold size. lia.
      - intros i Hi. apply list_elem_of_In in Hi.
        by rewrite (getsize_some _ _ _ (Hparts i Hi)). }
    lia. }
  set (w2 := emit (EvUpdate size) w1).
  destruct (merge_step_prefix filename n n w2 ltac:(lia)) as (w' & Hm & Hd & _).
  - intros i Hi. unfold w2. simpl.
    rewrite (Hparts i ltac:(by apply elem_of_range)). eauto.
  - lia.
  - pose proof (merge_parts_progress filename (range n) (open_truncate filename w2))
      as Hmp.
    unfold merge_step in Hm |- *. rewrite Z.ltb_irrefl in Hm. rewrite Hm in *.
    simpl in Hmp. exists w'. split; [reflexivity|]. split.
    + rewrite Hd. unfold concat_parts. f_equal.
      rewrite <- Hlenr, <- (map_const_replicate data (range n)). f_equal.
      apply map_ext_in. intros i Hi. apply list_elem_of_In in Hi.
      unfold w2. simpl. by rewrite (Hparts i Hi).
    + rewrite Hmp. exact Hprog.
Qed.

Lemma range_ignoring_server_duplicates_witness :
  let data := [Byte.x50; Byte.x4b; Byte.x03; Byte.x04] in
  let response := HeadResponse 200 {[ "content-length" := "4" ]} in
  let servers := fun _ : Z => [fun (_ _ : Z) => Stream [data] true] in
  probe response = ret (len data) /\
  exists w',
    download_file_rich response servers "a.zip" (World ∅ 0 []) = (Completed, w') /\
    fs w' !! "a.zip" = Some data.
Proof.
  cbv zeta.
  set (data := [Byte.x50; Byte.x4b; Byte.x03; Byte.x04]).
  assert (Hprobe : probe (HeadResponse 200 {[ "content-length" := "4" ]}) =
                   ret (len data)) by (vm_compute; reflexivity).
  split; [exact Hprobe|].
  destruct (range_ignoring_server_duplicates data _
              (fun _ : Z => [fun (_ _ : Z) => Stream [data] true])
              "a.zip" (World ∅ 0 []) Hprobe) as (w' & Hrun & Hd & _).
  - vm_compute. split; reflexivity.
  - intros content Hc. simpl in Hc. by rewrite lookup_empty in Hc.
  - intros i. eexists _, _. split; [reflexivity|].
    intros first last. eexists. split; reflexivity.
  - intros i. simpl. apply lookup_empty.
  - exists w'. split; [exact Hrun|]. rewrite Hd. vm_compute. reflexivity.
Defined.

(** * The parts of a task, once the workers have returned *)

(** The workers of a task against servers that honour the range: on
    return every part file holds exactly the bytes of its range. *)
Lemma run_parts_honoured (servers : Z -> server) (filename : string)
    (f : Z -> Z * Z) (l : list Z) (w : world) :
  (forall i, Forall honours_range (servers i)) ->
  NoDup l ->
  (forall i, i ∈ l ->
     getsize (part_file filename i) w <= snd (f i) - fst (f i) + 1) ->
  let '(st, w') := run_parts servers filename (map (fun i => (i, f i)) l) w in
  st = Returned ->
  forall i, i ∈ l ->
    getsize (part_file filename i) w' = snd (f i) - fst (f i) + 1.
Proof.
  intros Hsrv Hnd. revert w. induction Hnd as [|i l Hi Hnd IH]; intros w Hle.
  - simpl. intros _ i Hi. by apply elem_of_nil in Hi.
  - cbn [map run_parts]. destruct (f i) as [start end_] eqn:Hf.
    pose proof (download_range_unfold (servers i) filename start end_ i w) as Hu.
    pose proof (download_range_loop_exact (servers i) (part_file filename i)
                  start end_ (getsize (part_file filename i) w) w) as Hmine.
    pose proof (download_range_loop_files (servers i) (part_file filename i)
                  start end_ (getsize (part_file filename i) w) w) as Hfiles.
    rewrite <- Hu in Hmine, Hfiles.
    destruct (download_range _ _ _ _ _ _) as [s w1].
    destruct Hfiles as (_ & _ & _ & Hother & _).
    assert (Hrest : forall j, j ∈ l ->
              getsize (part_file filename j) w1 = getsize (part_file filename j) w).
    { intros j Hj. unfold getsize. rewrite Hother; [reflexivity|].
      intros Heq. apply part_file_inj in Heq. by subst. }
    specialize (IH w1 ltac:(intros j Hj; rewrite Hrest by done; apply Hle;
                            by apply list_elem_of_further)).
    pose proof (run_parts_frame servers filename (map (fun i => (i, f i)) l)
                  w1 (part_file filename i)) as Hfr.
    destruct (run_parts _ _ _ _) as [s' w']. simpl in Hfr.
    intros Hst j Hj. destruct s; [|discriminate].
    apply elem_of_cons in Hj as [->|Hj]; [|by apply IH].
    pose proof (Hle i ltac:(apply list_elem_of_here)) as Hlei.
    rewrite Hf in *. simpl in *. unfold getsize at 1. rewrite Hfr.
    + apply (Hmine w1 (Hsrv i) eq_refl Hlei eq_refl).
    + intros k Hk Heq. apply part_file_inj in Heq. subst k.
      apply list_elem_of_fmap in Hk as ([k r] & -> & Hk).
      apply list_elem_of_fmap in Hk as (k' & [= -> _] & Hk'). simpl in Hi. done.
Qed.

(** C10, as stated, fails: a planned part need not download a byte.  For a
    resource of ten bytes one range of ten bytes is planned; when the server
    answers the request with an empty body and no error the worker returns
    with a part file it has created and never written, the counter still at
    zero, and the merge copies that empty part file into the destination. *)
Lemma part_downloads_no_byte :
  let response := HeadResponse 200 {[ "content-length" := "10" ]} in
  let srv := [fun (_ _ : Z) => Stream [] true] in
  let w := World ∅ 0 [] in
  plan 10 = ret [(0, 9)] /\
  fst (download_range srv "f" 0 9 0 w) = Returned /\
  fs (snd (download_range srv "f" 0 9 0 w)) !! "f.part0" = Some [] /\
  progress_state (snd (download_range srv "f" 0 9 0 w)) = 0 /\
  fst (download_file_rich response (fun _ => srv) "f" w) = Completed /\
  fs (snd (download_file_rich response (fun _ => srv) "f" w)) !! "f" = Some [].
Proof. cbv zeta. repeat split; vm_compute; reflexivity. Qed.

(** C10, amended: for every positive file size, with
    [n = choose_threads(file_size)] and the part size the code computes,
    [n * (n - 1) < file_size], exactly [n] ranges are planned and each holds
    at least one byte; hence, once the [n] workers have returned, every one
    of the [n] part files exists and the merge step finds them all.  When the
    server honours the range and no part file started longer than its range,
    each part file then holds exactly the bytes of its range, at least
    one. *)
Theorem planned_parts_created (file_size part_size : Z) :
  0 < file_size ->
  part_size_of file_size (choose_threads file_size) = ret part_size ->
  let n := choose_threads file_size in
  let ranges := ranges_of file_size n part_size in
  n * (n - 1) < file_size /\
  length ranges = Z.to_nat n /\
  Forall (fun r => fst r <= snd r) ranges /\
  (forall servers filename w w',
     run_parts servers filename (enumerate ranges) w = (Returned, w') ->
     (forall i, 0 <= i < n -> is_Some (fs w' !! part_file filename i)) /\
     fst (merge_step filename n (emit (EvUpdate file_size) w')) = ret tt /\
     ((forall i, Forall honours_range (servers i)) ->
      (forall (i : nat) r, ranges !! i = Some r ->
         getsize (part_file filename (Z.of_nat i)) w <= snd r - fst r + 1) ->
      forall (i : nat) r, ranges !! i = Some r ->
        getsize (part_file filename (Z.of_nat i)) w' = snd r - fst r + 1 /\
        1 <= snd r - fst r + 1)).
Proof.
  intros Hpos Hps n ranges.
  destruct (planned_ranges_nonempty file_size part_size Hpos Hps)
    as (Hsq & Hlen & Hne & Hfiles).
  fold n ranges in Hsq, Hlen, Hne, Hfiles.
  split; [exact Hsq|]. split; [exact Hlen|]. split; [exact Hne|].
  intros servers filename w w' Hrun.
  destruct (Hfiles servers filename w w' Hrun) as [Hparts Hmerge].
  split; [exact Hparts|]. split; [exact Hmerge|].
  intros Hsrv Hle i r Hr.
  pose proof (Forall_lookup_1 _ _ _ _ Hne Hr) as Hnonempty. simpl in Hnonempty.
  split; [|lia].
  set (f := fun i => (i * part_size,
                      Z.min ((i + 1) * part_size - 1) (file_size - 1))).
  pose proof (run_parts_honoured servers filename f (range n) w Hsrv
                (NoDup_seqZ _ _)) as Hex.
  unfold ranges in Hrun. rewrite enumerate_ranges_of in Hrun.
  change (map _ (range n)) with (map (fun i => (i, f i)) (range n)) in Hrun.
  rewrite Hrun in Hex.
  pose proof Hr as Hr'. apply ranges_of_lookup in Hr' as [Hi ->].
  apply (Hex ltac:(intros j Hj; apply elem_of_range in Hj;
                   replace j with (Z.of_nat (Z.to_nat j)) at 1 by lia;
                   apply (Hle (Z.to_nat j) (f j));
                   by apply ranges_of_lookup_Z)
             eq_refl (Z.of_nat i)).
  apply elem_of_range. lia.
Qed.

Lemma planned_parts_created_witness :
  let servers := fun _ : Z =>
    [fun first last : Z =>
       Stream [repeat Byte.x00 (Z.to_nat (last - first + 1))] true] in
  let w := World ∅ 0 [] in
  0 < 10 /\
  part_size_of 10 (choose_threads 10) = ret 10 /\
  fst (run_parts servers "f" (enumerate (ranges_of 10 1 10)) w) = Returned /\
  getsize (part_file "f" 0)
    (snd (run_parts servers "f" (enumerate (ranges_of 10 1 10)) w)) = 10.
Proof.
  cbv zeta.
  set (servers := fun _ : Z =>
    [fun first last : Z =>
       Stream [repeat Byte.x00 (Z.to_nat (last - first + 1))] true]).
  assert (Hpos : 0 < 10) by lia.
  assert (Hps : part_size_of 10 (choose_threads 10) = ret 10)
    by (vm_compute; reflexivity).
  assert (Hrun : run_parts servers "f" (enumerate (ranges_of 10 1 10)) (World ∅ 0 [])
            = (Returned,
               snd (run_parts servers "f" (enumerate (ranges_of 10 1 10))
                      (World ∅ 0 [])))) by (vm_compute; reflexivity).
  split; [exact Hpos|]. split; [exact Hps|]. split; [by rewrite Hrun|].
  destruct (planned_parts_created 10 10 Hpos Hps) as (_ & _ & _ & Hw).
  destruct (Hw servers "f" _ _ Hrun) as (_ & _ & Hexact).
  refine (proj1 (Hexact _ _ 0%nat (0, 9) eq_refl)).
  - intros i. constructor; [|constructor]. intros first last Hfl. simpl.
    unfold len. rewrite app_nil_r, repeat_length. split; [lia|].
    intros chunks H. inversion H; subst. simpl.
    rewrite app_nil_r, repeat_length. lia.
  - intros i r Hr. destruct i as [|i]; [|destruct i; discriminate].
    injection Hr as <-. vm_compute. discriminate.
Defined.
